(** * dependify: the registry ([Container]), its recipes ([Dependency])
    and the constructor binder, as a shallow embedding of the Python code.

    Sources embedded:
    - [src/dependify/dependency.py]  class [Dependency]
    - [src/dependify/container.py]   class [Container]

    The binder (the constructor the [injected] declaration synthesizes) is
    not among the sources; it is modelled from section 4.4 of the
    specification.

    The Python objects the library mutates (the [__dependencies] dict of a
    container, the [instance] slot of a [Dependency]) live in an explicit
    store and are referred to by address, so that two references to one
    object see each other's writes.  [Container.resolve] recurses without
    a bound of its own; the model gives it a recursion budget ([fuel]) and
    a result [OutOfFuel] for the case where the budget does not suffice.

    What is abstracted: a class or function of the client program is named
    and described by its signature and by what a call returns or raises;
    every call receives one fresh object identity; and objects other than
    the library's are values that carry their identity.  Such a value
    keeps the contents it was created with: the model has no operation by
    which the client program changes a list or an instance afterwards, so
    a statement that a cached object is still truthy later on is made
    only of values whose truthiness is fixed ([fixed_truth]). *)

From Stdlib Require Import ZArith.
From stdpp Require Import gmap strings list fin_maps.

Local Open Scope string_scope.
Set Warnings "-register-all".

(** * Part I: the model *)

(** ** Python values *)

(** A symbol is a class or function object.  Such objects hash and compare
    by identity, which for a named definition is its name. *)
Abbreviation sym := string.

(** The identity ([id(...)]) of a heap object. *)
Abbreviation addr := nat.

(** The values that cross the library's interface.  [VList] and [VInst]
    carry the identity of the object; the other values are immutable
    atoms.  [VInst] stands for an instance of a class that defines neither
    [__bool__] nor [__len__]. *)
Inductive value : Type :=
  | VNone
  | VBool (b : bool)
  | VInt (n : Z)
  | VStr (s : string)
  | VList (a : addr) (items : list value)
  | VInst (a : addr) (cls : sym) (attrs : list (string * value))
  | VSym (s : sym).

(** Python truthiness, as tested by [if not x]. *)
Definition truthy (v : value) : bool :=
  match v with
  | VNone => false
  | VBool b => b
  | VInt n => negb (n =? 0)%Z
  | VStr s => negb (String.eqb s "")
  | VList _ items => match items with [] => false | _ :: _ => true end
  | VInst _ _ _ => true
  | VSym _ => true
  end.

(** The truthiness of [v] is fixed when [v] is created: [v] is an atom,
    or an instance of a class that defines neither [__bool__] nor
    [__len__].  A list is truthy or not according to its current
    contents, which the client program may change. *)
Definition fixed_truth (v : value) : bool :=
  match v with
  | VList _ _ => false
  | _ => true
  end.

(** [x is None] *)
Definition is_none (v : value) : bool :=
  match v with VNone => true | _ => false end.

(** The identity of a value that is a heap object. *)
Definition obj_id (v : value) : option addr :=
  match v with
  | VList a _ | VInst a _ _ => Some a
  | _ => None
  end.

(** [type(v).__name__] *)
Definition type_name (v : value) : sym :=
  match v with
  | VNone => "NoneType"
  | VBool _ => "bool"
  | VInt _ => "int"
  | VStr _ => "str"
  | VList _ _ => "list"
  | VInst _ cls _ => cls
  | VSym _ => "type"
  end.

Record exn := Exception { exn_type : string; exn_msg : string }.

Definition TypeError (msg : string) : exn := Exception "TypeError" msg.

Definition ValueError (msg : string) : exn := Exception "ValueError" msg.

(** Keyword arguments, [**kwargs]. *)
Abbreviation kwargs := (gmap string value).

(** ** Callables: what [inspect.signature] and a call see *)

(** One formal parameter, as [Dependency.__init__] reads it: its name,
    its annotation and its default, [None] where [inspect] reports
    [_empty].  The constructor does not read the kind of the parameter;
    the kinds, which decide how a call binds its keyword arguments, come
    with [Signature] below. *)
Record param := Param {
  p_name : string;
  p_annotation : option sym;
  p_default : option value
}.

Inductive result : Type :=
  | Return (v : value)
  | Raise (e : exn).

(** A class or function of the client program.  [parameters] is what
    [inspect.signature] reports; [call kw a] is a call with the keyword
    arguments [kw], where [a] is the identity the object created by the
    call receives: how the keyword arguments are bound to the parameters
    is part of [call].  A call does not reach into the registry, and it
    leaves the objects it is passed as they are. *)
Record callable := Callable {
  parameters : list param;
  call : kwargs -> addr -> result
}.

(** The binding of keyword arguments to parameters that are all of the
    ordinary kind ([POSITIONAL_OR_KEYWORD], as the parameters of the
    classes of the test-suite are): each takes the keyword argument of
    its name, else its default; a parameter with neither is missing.
    [binds] below is the test for any kinds. *)
Fixpoint bind_params (ps : list param) (kw : kwargs)
  : option (list (string * value)) :=
  match ps with
  | [] => Some []
  | p :: ps' =>
      match kw !! p_name p, p_default p with
      | Some v, _ | None, Some v =>
          match bind_params ps' kw with
          | Some rest => Some ((p_name p, v) :: rest)
          | None => None
          end
      | None, None => None
      end
  end.

(** Python's binding of keyword arguments to ordinary parameters: [None]
    stands for the [TypeError] of an unexpected keyword or of a missing
    argument. *)
Definition bind_args (ps : list param) (kw : kwargs)
  : option (list (string * value)) :=
  if bool_decide (dom kw ⊆ list_to_set (map p_name ps)) then bind_params ps kw
  else None.

(** Lookup in an ordered attribute list. *)
Fixpoint assoc {A : Type} (k : string) (l : list (string * A)) : option A :=
  match l with
  | [] => None
  | (k', v) :: l' => if String.eqb k k' then Some v else assoc k l'
  end.

(** A class whose [__init__] has ordinary parameters only and stores
    each in the attribute of the same name ([self.b = b]), as the classes
    of the test-suite do. *)
Definition plain_class (name : sym) (ps : list param) : callable :=
  Callable ps (fun kw a =>
    match bind_args ps kw with
    | Some attrs => Return (VInst a name attrs)
    | None => Raise (TypeError "arguments do not match the signature")
    end).

(** The kind of a formal parameter, [inspect.Parameter.kind]. *)
Inductive kind : Type :=
  | POSITIONAL_ONLY
  | POSITIONAL_OR_KEYWORD
  | VAR_POSITIONAL
  | KEYWORD_ONLY
  | VAR_KEYWORD.

(** A signature: the parameters in order, each with its kind. *)
Abbreviation Signature := (list (kind * param)).

(** The kinds a keyword argument can be bound to. *)
Definition by_keyword (k : kind) : bool :=
  match k with
  | POSITIONAL_OR_KEYWORD | KEYWORD_ONLY => true
  | POSITIONAL_ONLY | VAR_POSITIONAL | VAR_KEYWORD => false
  end.

(** The kinds that stand for one argument, which the call must get from
    somewhere. *)
Definition single (k : kind) : bool :=
  match k with
  | POSITIONAL_ONLY | POSITIONAL_OR_KEYWORD | KEYWORD_ONLY => true
  | VAR_POSITIONAL | VAR_KEYWORD => false
  end.

Definition keyword_names (sig : Signature) : list string :=
  omap (fun kp => if by_keyword kp.1 then Some (p_name kp.2) else None) sig.

(** The signature has a [**kwargs] parameter, which takes every keyword
    that names no parameter a keyword can be bound to. *)
Definition has_var_keyword (sig : Signature) : bool :=
  existsb (fun kp => match kp.1 with VAR_KEYWORD => true | _ => false end) sig.

(** In a call with keyword arguments only, the parameter gets a value: a
    positional-only parameter has nothing but its default, [*args] is
    empty and [**kwargs] holds the remaining keywords. *)
Definition supplied (kw : kwargs) (kp : kind * param) : bool :=
  match kp.1 with
  | POSITIONAL_OR_KEYWORD | KEYWORD_ONLY =>
      bool_decide (is_Some (kw !! p_name kp.2)) ||
      bool_decide (is_Some (p_default kp.2))
  | POSITIONAL_ONLY => bool_decide (is_Some (p_default kp.2))
  | VAR_POSITIONAL | VAR_KEYWORD => true
  end.

(** Whether the call [f( **kw)] binds: every keyword names a parameter a
    keyword can be bound to, unless there is a [**kwargs] to take it, and
    every parameter gets a value.  Otherwise Python raises [TypeError]
    before the body of [f] runs. *)
Definition binds (sig : Signature) (kw : kwargs) : bool :=
  (has_var_keyword sig ||
   bool_decide (dom kw ⊆ list_to_set (keyword_names sig))) &&
  forallb (supplied kw) sig.

(** [cl] is a class or function with the signature [sig]. *)
Definition has_signature (sig : Signature) (cl : callable) : Prop :=
  parameters cl = map snd sig /\
  forall kw a, binds sig kw = false ->
    exists msg, call cl kw a = Raise (TypeError msg).


(** The signature of ordinary parameters. *)
Definition ordinary (ps : list param) : Signature :=
  map (pair POSITIONAL_OR_KEYWORD) ps.

(** ** dependency.py: the recipe *)

Record Dependency := MkDependency {
  target : sym;
  cached : bool;
  instance : value;
  types : list (string * sym);
  defaults : list (string * value)
}.

(** The two dict comprehensions of [Dependency.__init__]. *)
Definition annotated (ps : list param) : list (string * sym) :=
  omap (fun p => match p_annotation p with
                 | Some t => Some (p_name p, t)
                 | None => None
                 end) ps.

Definition defaulted (ps : list param) : list (string * value) :=
  omap (fun p => match p_default p with
                 | Some v => Some (p_name p, v)
                 | None => None
                 end) ps.

Definition set_instance (d : Dependency) (v : value) : Dependency :=
  MkDependency (target d) (cached d) v (types d) (defaults d).

(** ** The store, and computations over it *)

(** [dict_store]: the dict objects used as [__dependencies];
    [dep_store]: the [Dependency] objects; [next_addr]: the next unused
    identity; [trace]: the calls made to targets so far, oldest first. *)
Record State := MkState {
  dict_store : gmap addr (gmap sym addr);
  dep_store : gmap addr Dependency;
  next_addr : addr;
  trace : list (sym * kwargs)
}.

(** The dict created once, when [def __init__(self, dependencies={})] is
    evaluated. *)
Definition DEFAULT_DICT : addr := 0.

(** The store right after the module is imported. *)
Definition initial_state : State :=
  MkState {[ DEFAULT_DICT := ∅ ]} ∅ 1 [].

Inductive outcome (A : Type) : Type :=
  | Ok (a : A)
  | Raised (e : exn)
  | OutOfFuel.
Arguments Ok {A} a.
Arguments Raised {A} e.
Arguments OutOfFuel {A}.

(** A computation reads and writes the store and returns, raises, or
    exceeds the recursion budget.  The store written so far survives an
    exception. *)
Definition M (A : Type) : Type := State -> outcome A * State.

Definition ret {A} (a : A) : M A := fun st => (Ok a, st).

Definition bind {A B} (m : M A) (k : A -> M B) : M B :=
  fun st =>
    match m st with
    | (Ok a, st') => k a st'
    | (Raised e, st') => (Raised e, st')
    | (OutOfFuel, st') => (OutOfFuel, st')
    end.

Definition raise {A} (e : exn) : M A := fun st => (Raised e, st).

Declare Scope py_scope.
Delimit Scope py_scope with py.
Notation "x <- m ;; k" := (bind m (fun x => k))
  (at level 100, m at next level, right associativity) : py_scope.
Notation "m ;; k" := (bind m (fun _ => k))
  (at level 100, right associativity) : py_scope.
Local Open Scope py_scope.

Definition read_dict (r : addr) : M (gmap sym addr) :=
  fun st => (Ok (default ∅ (dict_store st !! r)), st).

Definition read_dep (r : addr) : M Dependency :=
  fun st =>
    match dep_store st !! r with
    | Some d => (Ok d, st)
    | None => (Raised (Exception "ReferenceError" "no such object"), st)
    end.

(** ** dependency.py and container.py: the operations *)

Section Program.

(** The classes and functions of the client program, by name.  A symbol
    that is absent is a callable of which [inspect.signature] finds no
    signature (a builtin type such as [int]). *)
Variable Σ : gmap sym callable.

(** [self.target(...)]: a call of [f] with the keyword arguments [kw].  The
    call is logged in the trace and consumes one identity.  No
    [Dependency] that the constructor built has a target outside [Σ]; for
    such a target the model knows no behaviour, and the call raises. *)
Definition invoke (f : sym) (kw : kwargs) : M value :=
  fun st =>
    let st' := MkState (dict_store st) (dep_store st)
                       (S (next_addr st)) (trace st ++ [(f, kw)]) in
    match Σ !! f with
    | None => (Raised (TypeError "object is not callable"), st)
    | Some c =>
        match call c kw (next_addr st) with
        | Return v => (Ok v, st')
        | Raise e => (Raised e, st')
        end
    end.

(** [Dependency.__init__]: returns the address of the new object.
    [inspect.signature] raises [TypeError] for an object that is not
    callable, and [ValueError] for a callable of which it finds no
    signature; either leaves the constructor before anything is stored. *)
Definition Dependency_init (symbol : value) (cached : bool) : M addr :=
  fun st =>
    match symbol with
    | VSym f =>
        match Σ !! f with
        | Some c =>
            let d := MkDependency f cached VNone
                       (annotated (parameters c)) (defaulted (parameters c)) in
            let r := next_addr st in
            (Ok r, MkState (dict_store st) (<[r := d]> (dep_store st))
                           (S r) (trace st))
        | None => (Raised (ValueError "no signature found"), st)
        end
    | _ => (Raised (TypeError "object is not callable"), st)
    end.

(** [Dependency.resolve] on the object at [self]; the container calls it
    with keyword arguments only. *)
Definition Dependency_resolve (self : addr) (kw : kwargs) : M value :=
  d <- read_dep self ;;
  if cached d then
    (if negb (truthy (instance d)) then
       v <- invoke (target d) kw ;;
       (fun st => (Ok tt, MkState (dict_store st)
                            (<[self := set_instance d v]> (dep_store st))
                            (next_addr st) (trace st)))
     else ret tt) ;;
    d' <- read_dep self ;;
    ret (instance d')
  else invoke (target d) kw.

(** A container object: its own identity and the reference it holds in
    [self.__dependencies]. *)
Record Container := MkContainer {
  container_id : addr;
  dependencies_ref : addr
}.

(** [Container.__init__(dependencies={})]: [None] is the omitted argument,
    for which Python passes the one default dict. *)
Definition Container_init (dependencies : option addr) : M Container :=
  fun st =>
    (Ok (MkContainer (next_addr st) (default DEFAULT_DICT dependencies)),
     MkState (dict_store st) (dep_store st) (S (next_addr st)) (trace st)).

(** A dict display [{}] evaluated by the caller. *)
Definition new_dict : M addr :=
  fun st =>
    (Ok (next_addr st),
     MkState (<[next_addr st := ∅]> (dict_store st)) (dep_store st)
             (S (next_addr st)) (trace st)).

(** [self.__dependencies[symbol] = dependency] *)
Definition register_dependency (self : Container) (symbol : sym)
    (dependency : addr) : M unit :=
  fun st =>
    let r := dependencies_ref self in
    let dict := default ∅ (dict_store st !! r) in
    (Ok tt, MkState (<[r := <[symbol := dependency]> dict]> (dict_store st))
                    (dep_store st) (next_addr st) (trace st)).

(** [Container.register]; an omitted [replacement] is [None]. *)
Definition register (self : Container) (symbol : sym) (replacement : value)
    (cached : bool) : M unit :=
  let replacement :=
    if negb (truthy replacement) then VSym symbol else replacement in
  d <- Dependency_init replacement cached ;;
  register_dependency self symbol d.

(** [kwargs.update(dependency.defaults)] *)
Definition kwargs_update (kw : kwargs) (l : list (string * value)) : kwargs :=
  foldl (fun kw nv => <[nv.1 := nv.2]> kw) kw l.

(** The loop [for name, symbol in dependency.types.items()], over the
    recursive call [rec]. *)
Fixpoint resolve_types (rec : sym -> M value) (items : list (string * sym))
    (kw : kwargs) : M kwargs :=
  match items with
  | [] => ret kw
  | (name, symbol) :: rest =>
      inner_dep <- rec symbol ;;
      resolve_types rec rest
        (if is_none inner_dep then kw else <[name := inner_dep]> kw)
  end.

(** [Container.resolve]; [fuel] bounds the depth of the recursion. *)
Fixpoint resolve (fuel : nat) (self : Container) (symbol : sym) : M value :=
  match fuel with
  | O => fun st => (OutOfFuel, st)
  | S fuel' =>
      dict <- read_dict (dependencies_ref self) ;;
      match dict !! symbol with
      | None => ret VNone
      | Some dependency =>
          d <- read_dep dependency ;;
          let kw := kwargs_update ∅ (defaults d) in
          kw <- resolve_types (resolve fuel' self) (types d) kw ;;
          Dependency_resolve dependency kw
      end
  end.

(** [Container.has]: [symbol in self.__dependencies] *)
Definition has (self : Container) (symbol : sym) : M bool :=
  dict <- read_dict (dependencies_ref self) ;;
  ret (bool_decide (is_Some (dict !! symbol))).

(** [dependencies()]: the read-only view of the mapping. *)
Definition dependencies (self : Container) : M (gmap sym addr) :=
  read_dict (dependencies_ref self).

End Program.

(** ** Reading a registry *)

(** The symbol-to-recipe mapping a container currently sees. *)
Definition entries (self : Container) (st : State) : gmap sym addr :=
  default ∅ (dict_store st !! dependencies_ref self).

(** The recipe currently stored for a symbol. *)
Definition recipe (self : Container) (symbol : sym) (st : State)
  : option Dependency :=
  match entries self st !! symbol with
  | Some r => dep_store st !! r
  | None => None
  end.

(** The target a registration ends up with: [if not replacement:
    replacement = symbol]. *)
Definition effective_target (symbol : sym) (replacement : value) : value :=
  if negb (truthy replacement) then VSym symbol else replacement.

(** The store after [self.instance = v]. *)
Definition store_instance (self : addr) (d : Dependency) (v : value)
    (st : State) : State :=
  MkState (dict_store st) (<[self := set_instance d v]> (dep_store st))
          (next_addr st) (trace st).

(** Successive calls [resolve(s1)], [resolve(s2)], ... on one container. *)
Fixpoint resolve_all (Σ : gmap sym callable) (fuel : nat) (self : Container)
    (symbols : list sym) : M (list value) :=
  match symbols with
  | [] => ret []
  | s :: rest =>
      v <- resolve Σ fuel self s ;;
      vs <- resolve_all Σ fuel self rest ;;
      ret (v :: vs)
  end.

(** ** The binder: the constructor synthesized from a field specification *)

(** Modelled from the spec: the module that synthesizes constructors
    ([decorators.py], the [injected] declaration) is not among the
    sources; only its tests are.  The definitions of this part follow
    section 4.4 of the specification step by step, and the error messages
    are those the specification and the tests quote. *)
Record field := Field {
  f_name : string;
  f_type : sym;
  f_default : option value
}.

(** Modelled from the spec: step 1 of section 4.4, positional argument
    [i] is bound to field [i]; one argument too many is an error. *)
Fixpoint bind_positional (fields : list field) (args : list value)
  : exn + list (string * value) :=
  match args, fields with
  | [], _ => inr []
  | _ :: _, [] => inl (TypeError "unexpected positional argument")
  | v :: args', f :: fields' =>
      match bind_positional fields' args' with
      | inr rest => inr ((f_name f, v) :: rest)
      | inl e => inl e
      end
  end.

(** Modelled from the spec: step 2 of section 4.4, each named argument is
    checked against the positional ones and against the declared names,
    in the order given. *)
Fixpoint bind_named (cls : sym) (names : list string)
    (positional : gmap string value) (named : list (string * value))
    (bound : gmap string value) : exn + gmap string value :=
  match named with
  | [] => inr bound
  | (k, v) :: rest =>
      if bool_decide (is_Some (positional !! k)) then
        inl (TypeError ("Argument " ++ k ++
                        " already provided as a positional argument"))
      else if bool_decide (k ∈ names) then
        bind_named cls names positional rest (<[k := v]> bound)
      else
        inl (TypeError ("Argument " ++ k ++ " not found in class " ++ cls))
  end.

(** Modelled from the spec: the names of the fields left unresolved, in
    declaration order (step 4 of section 4.4). *)
Definition missing_arguments (filled : list (string * option value))
  : list string :=
  omap (fun nv => match nv.2 with None => Some nv.1 | Some _ => None end)
       filled.

(** Modelled from the spec: the values of the fields that are all
    resolved. *)
Definition resolved_values (filled : list (string * option value))
  : list (string * value) :=
  omap (fun nv => match nv.2 with Some v => Some (nv.1, v) | None => None end)
       filled.

Section Binder.

Variable Σ : gmap sym callable.

(** The instance test of the host language, [isinstance(value, type)]. *)
Variable isinstance : value -> sym -> bool.

(** The registry the constructor is bound to. *)
Variable registry : Container.

Variable fuel : nat.

(** Modelled from the spec: the fallback chain of step 3 of section 4.4
    for one field that was not supplied: (a) the registry, when the
    declared type is registered and resolves; (b) else the literal
    default; (c) else nothing. *)
Definition fallback (f : field) : M (option value) :=
  registered <- has registry (f_type f) ;;
  v <- (if registered : bool then resolve Σ fuel registry (f_type f)
        else ret VNone) ;;
  ret (if is_none v then f_default f else Some v).

(** Modelled from the spec: step 3 of section 4.4 over the declared
    fields, in order; a supplied field keeps the supplied value. *)
Fixpoint fill_fields (fields : list field) (bound : gmap string value)
  : M (list (string * option value)) :=
  match fields with
  | [] => ret []
  | f :: rest =>
      o <- match bound !! f_name f with
           | Some v => ret (Some v)
           | None => fallback f
           end ;;
      filled <- fill_fields rest bound ;;
      ret ((f_name f, o) :: filled)
  end.

(** Modelled from the spec: step 5 of section 4.4, only the supplied
    values are checked against the declared types. *)
Fixpoint check_types (fields : list field) (bound : gmap string value)
  : option exn :=
  match fields with
  | [] => None
  | f :: rest =>
      match bound !! f_name f with
      | Some v =>
          if isinstance v (f_type f) then check_types rest bound
          else Some (TypeError ("Expected " ++ f_type f ++ ", got " ++
                                type_name v ++ " for " ++ f_name f))
      | None => check_types rest bound
      end
  end.

(** Modelled from the spec: the synthesized constructor of class [cls]
    with the field specification [fields], called with the positional
    arguments [args] and the named arguments [named] (section 4.4, steps
    1 to 6).  The new object has its identity before its fields are
    filled. *)
Definition synthesized_init (cls : sym) (fields : list field)
    (args : list value) (named : list (string * value)) : M value :=
  self <- (fun st => (Ok (next_addr st),
                      MkState (dict_store st) (dep_store st)
                              (S (next_addr st)) (trace st))) ;;
  match bind_positional fields args with
  | inl e => raise e
  | inr positional =>
      match bind_named cls (map f_name fields) (list_to_map positional)
                       named (list_to_map positional) with
      | inl e => raise e
      | inr bound =>
          filled <- fill_fields fields bound ;;
          match missing_arguments filled with
          | (_ :: _) as missing =>
              raise (TypeError ("Missing arguments: " ++
                                String.concat ", " missing))
          | [] =>
              match check_types fields bound with
              | Some e => raise e
              | None => ret (VInst self cls (resolved_values filled))
              end
          end
      end
  end.

End Binder.

(** ** The vocabulary of the statements *)

(** Two states of one [Dependency] object: only the cache slot differs. *)
Definition same_recipe (d d' : Dependency) : Prop :=
  target d = target d' /\ cached d = cached d' /\
  types d = types d' /\ defaults d = defaults d'.

(** A recipe whose cache slot [Dependency.resolve] never writes: it is
    not cached, or it already holds a truthy instance. *)
Definition settled (d : Dependency) : Prop :=
  cached d = false \/ truthy (instance d) = true.

(** [st'] is a later store than [st] on which no registration happened in
    between: the dicts are the same, the same [Dependency] objects exist
    and keep their recipe, a settled one is not written at all, identities
    only grow and the trace only gets longer. *)
Record later_store (st st' : State) : Prop := LaterStore {
  later_dicts : dict_store st' = dict_store st;
  later_deps : forall r,
    option_Forall2 same_recipe (dep_store st !! r) (dep_store st' !! r);
  later_settled : forall r d,
    dep_store st !! r = Some d -> settled d -> dep_store st' !! r = Some d;
  later_addr : next_addr st <= next_addr st';
  later_trace : trace st `prefix_of` trace st'
}.

(** A computation that only ever moves the store forward. *)
Definition forward {A} (m : M A) : Prop :=
  forall st, later_store st (m st).2.



(** The [Dependency] object at [r] has the target [f], and what it has
    cached, if anything, satisfies [Q]; [n0] is an identity that was not
    yet given out when this was established. *)
Definition caches (r : addr) (f : sym) (Q : value -> Prop) (n0 : addr)
    (st : State) : Prop :=
  n0 <= next_addr st /\
  exists d, dep_store st !! r = Some d /\ target d = f /\
            (instance d = VNone \/ Q (instance d)).


(** A callable that returns the object it creates: a class, or a factory
    that builds its result. *)
Definition creates_object (cl : callable) : Prop :=
  forall kw a v, call cl kw a = Return v -> obj_id v = Some a.

(** [isinstance(v, cls)], for classes without subclasses. *)
Definition is_instance (cls : sym) (v : value) : Prop :=
  exists a attrs, v = VInst a cls attrs.



(** ** A client program for the examples *)

(** [Config] has one instance, created when the module is imported; it
    has identity 1, right after the default dict. *)
Definition the_config : value := VInst 1 "Config" [].

(** <<
    class B: pass
    class A:
        def __init__(self, b: B): self.b = b
    class Logger: pass
    class Database: pass
    class Service:
        def __init__(self, logger: Logger = "stdout", level: Level = 3,
                     name="svc"): ...
    class Needy:
        def __init__(self, n): self.n = n
    class Client:
        def __init__(self, dep: Needy): self.dep = dep
    def make_queue(): return []
    def get_config(): return CONFIG
    >> *)
Definition demo : gmap sym callable :=
  list_to_map [
    ("B", plain_class "B" []);
    ("A", plain_class "A" [Param "b" (Some "B") None]);
    ("Logger", plain_class "Logger" []);
    ("Database", plain_class "Database" []);
    ("Service", plain_class "Service"
       [Param "logger" (Some "Logger") (Some (VStr "stdout"));
        Param "level" (Some "Level") (Some (VInt 3));
        Param "name" None (Some (VStr "svc"))]);
    ("Needy", plain_class "Needy" [Param "n" None None]);
    ("Client", plain_class "Client" [Param "dep" (Some "Needy") None]);
    ("make_queue", Callable [] (fun _ a => Return (VList a [])));
    ("get_config", Callable [] (fun _ _ => Return the_config))
  ].

(** The store after the import, [CONFIG] included. *)
Definition imported_state : State := MkState {[ DEFAULT_DICT := ∅ ]} ∅ 2 [].

(** The container made by [c = Container()] right after the import, and
    the store it leaves. *)
Definition demo_container : Container := MkContainer 2 DEFAULT_DICT.

Definition demo_state : State := MkState {[ DEFAULT_DICT := ∅ ]} ∅ 3 [].

(** <<
    c1 = Container(); c2 = Container()
    c1.register(B)
    return c2.has(B), c2.resolve(B)
    >> *)
Definition two_default_containers : M (bool * value) :=
  c1 <- Container_init None ;;
  c2 <- Container_init None ;;
  register demo c1 "B" VNone false ;;
  found <- has c2 "B" ;;
  v <- resolve demo 1 c2 "B" ;;
  ret (found, v).

(** <<
    c = Container()
    c.register(Queue, make_queue, cached=True)
    return c.resolve(Queue), c.resolve(Queue)
    >> *)
Definition cached_queue_twice : M (value * value) :=
  c <- Container_init None ;;
  register demo c "Queue" (VSym "make_queue") true ;;
  q1 <- resolve demo 1 c "Queue" ;;
  q2 <- resolve demo 1 c "Queue" ;;
  ret (q1, q2).

(** <<
    c = Container()
    c.register(Config, get_config)
    return c.resolve(Config), c.resolve(Config)
    >> *)
Definition shared_config_twice : M (value * value) :=
  c <- Container_init None ;;
  register demo c "Config" (VSym "get_config") false ;;
  v1 <- resolve demo 1 c "Config" ;;
  v2 <- resolve demo 1 c "Config" ;;
  ret (v1, v2).

(** <<
    c.register(Client); c.register(Needy)
    >> *)
Definition client_registered : State :=
  ((register demo demo_container "Client" VNone false ;;
    register demo demo_container "Needy" VNone false)%py demo_state).2.

(** The instance test used in the examples: the value's class is the
    declared one. *)
Definition exact_type (v : value) (T : sym) : bool :=
  String.eqb (type_name v) T.

(** <<
    class Service:
        name: str
        logger: Logger
        db: Database = None
        config: dict = None
    >> *)
Definition service_fields : list field :=
  [Field "name" "str" None; Field "logger" "Logger" None;
   Field "db" "Database" (Some VNone); Field "config" "dict" (Some VNone)].

(** <<
    class MultiClass:
        a: int
        b: str
        c: bool
        d: float
    >> *)
Definition multi_fields : list field :=
  [Field "a" "int" None; Field "b" "str" None; Field "c" "bool" None;
   Field "d" "float" None].

(** <<
    def no_database(): return None
    >> *)
Definition optional_database : gmap sym callable :=
  {[ "no_database" := Callable [] (fun _ _ => Return VNone) ]}.

(** <<
    class Report:
        db: Database = "dflt"
    >> *)
Definition report_fields : list field :=
  [Field "db" "Database" (Some (VStr "dflt"))].

(** ** Vocabulary and programs of the further properties *)

(** The registry is acyclic: [rk] ranks the symbols so that every
    parameter type of a registered recipe ranks below the symbol the
    recipe is registered for. *)
Definition ranked (c : Container) (st : State) (rk : sym -> nat) : Prop :=
  forall s r d n t,
    entries c st !! s = Some r -> dep_store st !! r = Some d ->
    (n, t) ∈ types d -> rk t < rk s.


(** Every symbol of the set [C] is registered with a recipe that has a
    parameter annotated with a symbol of [C]: the symbols of [C] depend
    on each other in a circle. *)
Definition dependency_cycle (c : Container) (st : State) (C : sym -> Prop)
  : Prop :=
  forall s, C s ->
    exists r d n t,
      entries c st !! s = Some r /\ dep_store st !! r = Some d /\
      (n, t) ∈ types d /\ C t.

(** <<
    class A: pass
    class B: pass
    def make_a(b: B): return A()
    def make_b(a: A): return B()
    >> *)
Definition circular : gmap sym callable :=
  list_to_map [
    ("make_a", Callable [Param "b" (Some "B") None]
                        (fun _ a => Return (VInst a "A" [])));
    ("make_b", Callable [Param "a" (Some "A") None]
                        (fun _ a => Return (VInst a "B" [])))
  ].

(** <<
    c.register(A, make_a); c.register(B, make_b)
    >> *)
Definition circular_registered : State :=
  ((register circular demo_container "A" (VSym "make_a") false ;;
    register circular demo_container "B" (VSym "make_b") false)%py
     demo_state).2.

(** <<
    d = Dependency(B, cached=True)
    c.register_dependency(B, d); c.register_dependency(Alias, d)
    >> *)
Definition alias_registered : State :=
  ((d <- Dependency_init demo (VSym "B") true ;;
    register_dependency demo_container "B" d ;;
    register_dependency demo_container "Alias" d)%py demo_state).2.

(** <<
    c.register(A, cached=True); c.register(B); c.resolve(A)
    >> *)
Definition cached_A_resolved : State :=
  ((register demo demo_container "A" VNone true ;;
    register demo demo_container "B" VNone false ;;
    resolve demo 2 demo_container "A")%py demo_state).2.

(** * Part II: lemmas *)

(** ** Computations *)

Lemma bind_Ok {A B} (m : M A) (k : A -> M B) st b st' :
  bind m k st = (Ok b, st') ->
  exists a st1, m st = (Ok a, st1) /\ k a st1 = (Ok b, st').
Proof.
  unfold bind. destruct (m st) as [[a | e |] st1]; intros H; try discriminate.
  exists a, st1. split; [reflexivity | exact H].
Qed.

Lemma bind_run {A B} (m : M A) (k : A -> M B) st a st1 :
  m st = (Ok a, st1) -> bind m k st = k a st1.
Proof. intros H. unfold bind. rewrite H. reflexivity. Qed.

(** ** What a resolution may change in the store *)

#[local] Instance same_recipe_equiv : Equivalence same_recipe.
Proof.
  split.
  - intros d. repeat split.
  - intros d d' (? & ? & ? & ?). repeat split; congruence.
  - intros d1 d2 d3 (? & ? & ? & ?) (? & ? & ? & ?). repeat split; congruence.
Qed.

#[local] Instance later_store_refl : Reflexive later_store.
Proof. intros st. split; try reflexivity. auto. Qed.

#[local] Instance later_store_trans : Transitive later_store.
Proof.
  intros s1 s2 s3 [Hd1 Hp1 Hs1 Ha1 Ht1] [Hd2 Hp2 Hs2 Ha2 Ht2]. split.
  - congruence.
  - intros r. etransitivity; [apply Hp1 | apply Hp2].
  - intros r d H Hd. eapply Hs2; [eapply Hs1 |]; eassumption.
  - lia.
  - etransitivity; eassumption.
Qed.

(** The store after a call was logged and an identity consumed. *)
Lemma later_store_call st f kw :
  later_store st (MkState (dict_store st) (dep_store st) (S (next_addr st))
                          (trace st ++ [(f, kw)])).
Proof.
  split; simpl; [reflexivity | intros r; reflexivity | auto | lia
                | apply prefix_app_r; reflexivity].
Qed.

Lemma forward_ret {A} (a : A) : forward (ret a).
Proof. intros st. reflexivity. Qed.

Lemma forward_bind {A B} (m : M A) (k : A -> M B) :
  forward m -> (forall a, forward (k a)) -> forward (bind m k).
Proof.
  intros Hm Hk st. unfold bind. specialize (Hm st).
  destruct (m st) as [[a | e |] st1]; simpl in *; try exact Hm.
  etransitivity; [exact Hm | apply Hk].
Qed.

Lemma forward_read_dict r : forward (read_dict r).
Proof. intros st. reflexivity. Qed.

Lemma forward_has self symbol : forward (has self symbol).
Proof. intros st. reflexivity. Qed.

Lemma forward_read_dep r : forward (read_dep r).
Proof. intros st. unfold read_dep. destruct (_ !! _); reflexivity. Qed.

Lemma forward_invoke Σ f kw : forward (invoke Σ f kw).
Proof.
  intros st. unfold invoke.
  destruct (Σ !! f) as [c |]; [| reflexivity].
  destruct (call c kw (next_addr st)); simpl; apply later_store_call.
Qed.

Lemma forward_Dependency_resolve Σ self kw :
  forward (Dependency_resolve Σ self kw).
Proof.
  intros st. unfold Dependency_resolve, bind, read_dep, invoke, ret.
  destruct (dep_store st !! self) as [d |] eqn:Hd; [| reflexivity].
  destruct (cached d) eqn:Hc.
  - destruct (truthy (instance d)) eqn:Hi; simpl.
    + rewrite Hd. reflexivity.
    + destruct (Σ !! target d) as [c |]; [| reflexivity].
      destruct (call c kw (next_addr st)) as [v | e]; simpl;
        [| apply later_store_call].
      rewrite lookup_insert_eq. simpl. split; simpl.
      * reflexivity.
      * intros r. destruct (decide (r = self)) as [-> |].
        -- rewrite Hd, lookup_insert_eq. constructor. repeat split.
        -- rewrite lookup_insert_ne by congruence. reflexivity.
      * intros r d' Hr [Hs | Hs].
        -- rewrite lookup_insert_ne; [exact Hr |]. intros <-.
           rewrite Hd in Hr. injection Hr as <-. congruence.
        -- rewrite lookup_insert_ne; [exact Hr |]. intros <-.
           rewrite Hd in Hr. injection Hr as <-. congruence.
      * lia.
      * apply prefix_app_r. reflexivity.
  - destruct (Σ !! target d) as [c |]; [| reflexivity].
    destruct (call c kw (next_addr st)); simpl; apply later_store_call.
Qed.

Lemma forward_resolve_types (rec : sym -> M value) items :
  (forall s, forward (rec s)) ->
  forall kw, forward (resolve_types rec items kw).
Proof.
  intros Hrec. induction items as [| [name symbol] rest IH]; intros kw; simpl.
  - apply forward_ret.
  - apply forward_bind; [apply Hrec | intros v; apply IH].
Qed.

Lemma forward_resolve Σ fuel self symbol :
  forward (resolve Σ fuel self symbol).
Proof.
  revert symbol. induction fuel as [| fuel IH]; intros symbol; simpl.
  - intros st. reflexivity.
  - apply forward_bind; [apply forward_read_dict |]. intros dict.
    destruct (dict !! symbol) as [r |]; [| apply forward_ret].
    apply forward_bind; [apply forward_read_dep |]. intros d.
    apply forward_bind.
    + apply forward_resolve_types. exact IH.
    + intros kw. apply forward_Dependency_resolve.
Qed.

Lemma forward_resolve_all Σ self fuel symbols :
  forward (resolve_all Σ fuel self symbols).
Proof.
  induction symbols as [| s rest IH]; simpl.
  - apply forward_ret.
  - apply forward_bind; [apply forward_resolve |]. intros v.
    apply forward_bind; [exact IH |]. intros vs. apply forward_ret.
Qed.

(** ** Reading and writing a registry *)

Lemma has_spec self symbol st :
  has self symbol st =
    (Ok (bool_decide (is_Some (entries self st !! symbol))), st).
Proof. reflexivity. Qed.

Lemma has_false self symbol st :
  has self symbol st = (Ok false, st) <-> entries self st !! symbol = None.
Proof.
  rewrite has_spec. split.
  - intros H. injection H as H. apply bool_decide_eq_false in H.
    destruct (entries self st !! symbol) eqn:E; [| reflexivity].
    exfalso. apply H. eauto.
  - intros ->. rewrite bool_decide_eq_false_2; [reflexivity |].
    intros [? ?]. discriminate.
Qed.

Lemma has_true self symbol st :
  has self symbol st = (Ok true, st) <-> is_Some (entries self st !! symbol).
Proof.
  rewrite has_spec. split.
  - intros H. injection H as H. apply bool_decide_eq_true in H. exact H.
  - intros H. rewrite bool_decide_eq_true_2; [reflexivity | exact H].
Qed.

Lemma resolve_absent Σ fuel self symbol st :
  entries self st !! symbol = None ->
  resolve Σ (S fuel) self symbol st = (Ok VNone, st).
Proof.
  intros H. simpl. unfold bind, read_dict. fold (entries self st).
  rewrite H. reflexivity.
Qed.

Lemma resolve_all_absent Σ fuel self symbol st n :
  entries self st !! symbol = None ->
  resolve_all Σ (S fuel) self (replicate n symbol) st
  = (Ok (replicate n VNone), st).
Proof.
  intros H. induction n as [| n IH]; [reflexivity |].
  cbn [replicate resolve_all].
  rewrite (bind_run _ _ _ _ _ (resolve_absent Σ fuel self symbol st H)).
  rewrite (bind_run _ _ _ _ _ IH). reflexivity.
Qed.

Lemma resolve_present Σ fuel self symbol st r d :
  entries self st !! symbol = Some r ->
  dep_store st !! r = Some d ->
  resolve Σ (S fuel) self symbol st =
    (kw <- resolve_types (resolve Σ fuel self) (types d)
             (kwargs_update ∅ (defaults d)) ;;
     Dependency_resolve Σ r kw) st.
Proof.
  intros H Hd. simpl. unfold bind at 1, read_dict. fold (entries self st).
  rewrite H. unfold bind at 1, read_dep. rewrite Hd. reflexivity.
Qed.

Lemma resolve_dangling Σ fuel self symbol st r :
  entries self st !! symbol = Some r ->
  dep_store st !! r = None ->
  resolve Σ (S fuel) self symbol st =
    (Raised (Exception "ReferenceError" "no such object"), st).
Proof.
  intros H Hd. simpl. unfold bind at 1, read_dict. fold (entries self st).
  rewrite H. unfold bind at 1, read_dep. rewrite Hd. reflexivity.
Qed.

(** What a successful [register] does to the store. *)
Lemma register_Ok Σ self symbol replacement cache st st' :
  register Σ self symbol replacement cache st = (Ok tt, st') ->
  exists f c,
    effective_target symbol replacement = VSym f /\ Σ !! f = Some c /\
    st' = MkState
            (<[dependencies_ref self :=
                 <[symbol := next_addr st]> (entries self st)]> (dict_store st))
            (<[next_addr st :=
                 MkDependency f cache VNone (annotated (parameters c))
                              (defaulted (parameters c))]> (dep_store st))
            (S (next_addr st)) (trace st).
Proof.
  unfold register. fold (effective_target symbol replacement).
  intros H. apply bind_Ok in H as (r & st1 & Hinit & Hreg).
  unfold Dependency_init in Hinit.
  destruct (effective_target symbol replacement) as [| | | | | | f];
    try discriminate.
  destruct (Σ !! f) as [c |] eqn:Hf; [| discriminate].
  injection Hinit as <- <-. exists f, c.
  split; [reflexivity | split; [exact Hf |]].
  unfold register_dependency in Hreg. simpl in Hreg.
  injection Hreg as <-. reflexivity.
Qed.

Lemma register_callable Σ self symbol replacement cache st f c :
  effective_target symbol replacement = VSym f -> Σ !! f = Some c ->
  exists st', register Σ self symbol replacement cache st = (Ok tt, st').
Proof.
  intros Ht Hf. unfold register. fold (effective_target symbol replacement).
  rewrite Ht. unfold bind, Dependency_init. rewrite Hf.
  unfold register_dependency. eauto.
Qed.

Lemma register_entries Σ self symbol replacement cache st st' :
  register Σ self symbol replacement cache st = (Ok tt, st') ->
  entries self st' = <[symbol := next_addr st]> (entries self st).
Proof.
  intros H. apply register_Ok in H as (f & c & _ & _ & ->).
  unfold entries at 1. simpl. rewrite lookup_insert_eq. reflexivity.
Qed.

Lemma register_recipe Σ self symbol replacement cache st st' :
  register Σ self symbol replacement cache st = (Ok tt, st') ->
  exists f c,
    effective_target symbol replacement = VSym f /\ Σ !! f = Some c /\
    recipe self symbol st' =
      Some (MkDependency f cache VNone (annotated (parameters c))
                         (defaulted (parameters c))).
Proof.
  intros H. pose proof (register_entries _ _ _ _ _ _ _ H) as He.
  apply register_Ok in H as (f & c & Ht & Hf & ->).
  exists f, c. split; [exact Ht | split; [exact Hf |]].
  unfold recipe. rewrite He, lookup_insert_eq. simpl.
  apply lookup_insert_eq.
Qed.

(** A registration writes the dict of its own container only. *)
Lemma register_other_dict Σ c1 c2 s r cache st st' :
  dependencies_ref c1 <> dependencies_ref c2 ->
  register Σ c1 s r cache st = (Ok tt, st') ->
  entries c2 st' = entries c2 st.
Proof.
  intros Hne Hreg. apply register_Ok in Hreg as (f & cl & _ & _ & ->).
  unfold entries. simpl. rewrite lookup_insert_ne by exact Hne. reflexivity.
Qed.


(** ** [Dependency.resolve], case by case *)

Lemma Dependency_resolve_transient Σ self kw st d :
  dep_store st !! self = Some d -> cached d = false ->
  Dependency_resolve Σ self kw st = invoke Σ (target d) kw st.
Proof.
  intros Hd Hc. unfold Dependency_resolve, bind at 1, read_dep.
  rewrite Hd, Hc. reflexivity.
Qed.

Lemma Dependency_resolve_hit Σ self kw st d :
  dep_store st !! self = Some d -> cached d = true ->
  truthy (instance d) = true ->
  Dependency_resolve Σ self kw st = (Ok (instance d), st).
Proof.
  intros Hd Hc Ht. unfold Dependency_resolve, bind, read_dep, ret.
  rewrite Hd, Hc, Ht. simpl. rewrite Hd. reflexivity.
Qed.

Lemma Dependency_resolve_miss Σ self kw st d :
  dep_store st !! self = Some d -> cached d = true ->
  truthy (instance d) = false ->
  Dependency_resolve Σ self kw st =
    match invoke Σ (target d) kw st with
    | (Ok v, st1) => (Ok v, store_instance self d v st1)
    | (Raised e, st1) => (Raised e, st1)
    | (OutOfFuel, st1) => (OutOfFuel, st1)
    end.
Proof.
  intros Hd Hc Ht. unfold Dependency_resolve, bind, read_dep, ret.
  rewrite Hd, Hc, Ht. simpl.
  destruct (invoke Σ (target d) kw st) as [[v | e |] st1]; try reflexivity.
  simpl. rewrite lookup_insert_eq. reflexivity.
Qed.

Lemma Dependency_resolve_dangling Σ self kw st :
  dep_store st !! self = None ->
  Dependency_resolve Σ self kw st =
    (Raised (Exception "ReferenceError" "no such object"), st).
Proof.
  intros Hd. unfold Dependency_resolve, bind, read_dep. rewrite Hd.
  reflexivity.
Qed.

(** ** The argument-assembly loop *)

(** [kwargs.update(l)] on names that are pairwise distinct. *)
Lemma kwargs_update_lookup (l : list (string * value)) (kw : kwargs) n :
  NoDup l.*1 ->
  kwargs_update kw l !! n =
    match assoc n l with Some v => Some v | None => kw !! n end.
Proof.
  revert kw. induction l as [| [k v] l IH]; intros kw Hnd; simpl.
  - reflexivity.
  - apply NoDup_cons in Hnd as [Hk Hnd].
    change (kwargs_update (<[k := v]> kw) l !! n =
            match (if String.eqb n k then Some v else assoc n l) with
            | Some v0 => Some v0 | None => kw !! n end).
    rewrite IH by exact Hnd. destruct (String.eqb_spec n k) as [-> |].
    + assert (assoc k l = None) as ->; [| apply lookup_insert_eq].
      clear -Hk. induction l as [| [k' v'] l IH]; [reflexivity |].
      simpl in *. destruct (String.eqb_spec k k') as [-> |].
      * exfalso. apply Hk. left.
      * apply IH. intros H. apply Hk. right. exact H.
    + destruct (assoc n l); [reflexivity |].
      apply lookup_insert_ne. congruence.
Qed.

Lemma assoc_Some {A} (l : list (string * A)) n v :
  NoDup l.*1 -> (assoc n l = Some v <-> (n, v) ∈ l).
Proof.
  induction l as [| [k w] l IH]; intros Hnd; simpl.
  - split; [discriminate | intros H; inversion H].
  - apply NoDup_cons in Hnd as [Hk Hnd].
    destruct (String.eqb_spec n k) as [-> |]; split.
    + intros [= ->]. left.
    + intros H. apply elem_of_cons in H as [[= ->] | H]; [reflexivity |].
      exfalso. apply Hk. apply list_elem_of_fmap. exists (k, v). auto.
    + intros H. right. apply IH; assumption.
    + intros H. apply elem_of_cons in H as [[= -> ->] | H]; [congruence |].
      apply IH; assumption.
Qed.

Lemma resolve_types_preserves (P : State -> Prop) (rec : sym -> M value) :
  (forall s st, P st -> P (rec s st).2) ->
  forall items kw st, P st -> P (resolve_types rec items kw st).2.
Proof.
  intros HP. induction items as [| [name symbol] rest IH]; intros kw st Hst.
  - exact Hst.
  - simpl. unfold bind. specialize (HP symbol st Hst).
    destruct (rec symbol st) as [[v | e |] st1]; simpl in *; try exact HP.
    apply IH. exact HP.
Qed.

(** What the loop leaves in [kwargs]: a name that is not annotated keeps
    its entry; an annotated name holds what the recursive call returned,
    unless that was [None], in which case it keeps its entry too.  [P] is
    any property of the store the recursive call preserves. *)
Lemma resolve_types_args (P : State -> Prop) (rec : sym -> M value) :
  (forall s, forward (rec s)) ->
  (forall s st, P st -> P (rec s st).2) ->
  forall items kw0 st kw st',
    P st -> NoDup items.*1 ->
    resolve_types rec items kw0 st = (Ok kw, st') ->
    P st' /\
    (forall n, n ∉ items.*1 -> kw !! n = kw0 !! n) /\
    (forall n T, (n, T) ∈ items ->
       exists sta stb v,
         P sta /\ later_store st sta /\ later_store stb st' /\
         rec T sta = (Ok v, stb) /\
         kw !! n = if is_none v then kw0 !! n else Some v).
Proof.
  intros Hfw HP.
  induction items as [| [name symbol] rest IH]; intros kw0 st kw st' Hst Hnd H.
  - simpl in H. injection H as <- <-. split; [exact Hst |].
    split; [reflexivity |]. intros n T Hin. inversion Hin.
  - simpl in H. apply bind_Ok in H as (v & st1 & Hrec & Hrest).
    apply NoDup_cons in Hnd as [Hname Hnd].
    assert (P st1) as Hst1 by (specialize (HP symbol st Hst);
                               rewrite Hrec in HP; exact HP).
    assert (later_store st st1) as L1 by (specialize (Hfw symbol st);
                                          rewrite Hrec in Hfw; exact Hfw).
    assert (later_store st1 st') as L2.
    { pose proof (forward_resolve_types rec rest Hfw
                    (if is_none v then kw0 else <[name := v]> kw0) st1) as L.
      rewrite Hrest in L. exact L. }
    destruct (IH _ _ _ _ Hst1 Hnd Hrest) as (Hst' & Hout & Hin).
    assert (forall n, n <> name ->
              (if is_none v then kw0 else <[name := v]> kw0) !! n = kw0 !! n)
      as Hother.
    { intros n Hn. destruct (is_none v); [reflexivity |].
      apply lookup_insert_ne. congruence. }
    split; [exact Hst' |]. split.
    + intros n Hn. simpl in Hn. apply not_elem_of_cons in Hn as [Hn1 Hn2].
      rewrite (Hout n Hn2). apply Hother. exact Hn1.
    + intros n T HnT. apply elem_of_cons in HnT as [[= -> ->] | HnT].
      * exists st, st1, v. split; [exact Hst |]. split; [reflexivity |].
        split; [exact L2 |]. split; [exact Hrec |].
        rewrite (Hout name Hname). destruct (is_none v); [reflexivity |].
        apply lookup_insert_eq.
      * destruct (Hin n T HnT) as (sta & stb & v' & Pa & La & Lb & Hr & Hkw).
        exists sta, stb, v'. split; [exact Pa |].
        split; [etransitivity; eassumption |]. split; [exact Lb |].
        split; [exact Hr |]. rewrite Hkw.
        destruct (is_none v'); [| reflexivity]. apply Hother.
        intros ->. apply Hname. apply list_elem_of_fmap. exists (name, T). auto.
Qed.

(** ** Stores that differ in one unreachable object *)

Section Unreachable.

Variable Σ : gmap sym callable.
Variable self : Container.
Variable x : addr.







End Unreachable.



(** ** Containers created with the default argument *)

(** Two calls [Container()] yield two containers that hold the one
    default dict. *)
Lemma Container_init_default st c1 st1 c2 st2 :
  Container_init None st = (Ok c1, st1) ->
  Container_init None st1 = (Ok c2, st2) ->
  container_id c1 <> container_id c2 /\
  dependencies_ref c1 = dependencies_ref c2.
Proof.
  unfold Container_init. intros [= <- <-] [= <- <-]. simpl.
  split; [lia | reflexivity].
Qed.

(** What is registered through one of them is registered in the other. *)
Lemma default_containers_alias Σ st c1 st1 c2 st2 s r cache st3 :
  Container_init None st = (Ok c1, st1) ->
  Container_init None st1 = (Ok c2, st2) ->
  register Σ c1 s r cache st2 = (Ok tt, st3) ->
  has c2 s st3 = (Ok true, st3).
Proof.
  intros H1 H2 Hreg.
  destruct (Container_init_default _ _ _ _ _ H1 H2) as [_ Href].
  apply has_true. apply register_entries in Hreg.
  unfold entries in *. rewrite <- Href, Hreg, lookup_insert_eq. eauto.
Qed.

(** ** A cached recipe *)

(** The instance a cached recipe holds is returned as it is, and the
    target is not called: the store, trace included, stays as it was. *)
Lemma cached_instance_returned Σ c s fuel st r d kw st1 :
  entries c st !! s = Some r -> dep_store st !! r = Some d ->
  cached d = true -> truthy (instance d) = true ->
  resolve_types (resolve Σ fuel c) (types d)
                (kwargs_update ∅ (defaults d)) st = (Ok kw, st1) ->
  resolve Σ (S fuel) c s st = (Ok (instance d), st1) /\
  dep_store st1 !! r = Some d.
Proof.
  intros He Hd Hc Hi Hloop.
  assert (dep_store st1 !! r = Some d) as Hd1.
  { pose proof (forward_resolve_types (resolve Σ fuel c) (types d)
                  (forward_resolve Σ fuel c)
                  (kwargs_update ∅ (defaults d)) st) as L.
    rewrite Hloop in L. apply (later_settled _ _ L r d Hd). right. exact Hi. }
  split; [| exact Hd1].
  rewrite (resolve_present Σ fuel c s st r d He Hd).
  rewrite (bind_run _ _ _ _ _ Hloop).
  apply Dependency_resolve_hit; assumption.
Qed.

(** Whatever a resolution of a cached symbol with a truthy instance
    returns, it is that instance. *)
Lemma cached_instance_stable Σ c s fuel st r d v st' :
  entries c st !! s = Some r -> dep_store st !! r = Some d ->
  cached d = true -> truthy (instance d) = true ->
  resolve Σ fuel c s st = (Ok v, st') ->
  v = instance d /\ dep_store st' !! r = Some d.
Proof.
  intros He Hd Hc Hi H. destruct fuel as [| fuel]; [discriminate |].
  rewrite (resolve_present Σ fuel c s st r d He Hd) in H.
  apply bind_Ok in H as (kw & st1 & Hloop & Hdr).
  destruct (cached_instance_returned Σ c s fuel st r d kw st1)
    as [Hres Hd1]; try assumption.
  rewrite (Dependency_resolve_hit Σ r kw st1 d Hd1 Hc Hi) in Hdr.
  injection Hdr as <- <-. split; [reflexivity | exact Hd1].
Qed.

(** The first resolution of a cached symbol leaves what it returned in
    the cache slot. *)
Lemma cached_instance_stored Σ c s fuel st r d v st' :
  entries c st !! s = Some r -> dep_store st !! r = Some d ->
  cached d = true ->
  resolve Σ fuel c s st = (Ok v, st') ->
  exists d', dep_store st' !! r = Some d' /\ same_recipe d d' /\ instance d' = v.
Proof.
  intros He Hd Hc H. destruct fuel as [| fuel]; [discriminate |].
  rewrite (resolve_present Σ fuel c s st r d He Hd) in H.
  apply bind_Ok in H as (kw & sti & Hloop & Hdr).
  pose proof (forward_resolve_types (resolve Σ fuel c) (types d)
                (forward_resolve Σ fuel c)
                (kwargs_update ∅ (defaults d)) st) as L.
  rewrite Hloop in L. simpl in L.
  pose proof (later_deps _ _ L r) as Hr. rewrite Hd in Hr.
  inversion Hr as [? d1 Hs Ed Ed1 |]; subst. symmetry in Ed1.
  assert (cached d1 = true) as Hc1 by (destruct Hs as (_ & <- & _); exact Hc).
  destruct (truthy (instance d1)) eqn:Hi.
  - rewrite (Dependency_resolve_hit Σ r kw sti d1 Ed1 Hc1 Hi) in Hdr.
    injection Hdr as <- <-. exists d1. auto.
  - rewrite (Dependency_resolve_miss Σ r kw sti d1 Ed1 Hc1 Hi) in Hdr.
    unfold invoke in Hdr. destruct (Σ !! target d1) as [cl |]; [| discriminate].
    destruct (call cl kw (next_addr sti)) as [w | e]; [| discriminate].
    injection Hdr as <- <-. exists (set_instance d1 w). simpl.
    rewrite lookup_insert_eq. split; [reflexivity |]. split; [| reflexivity].
    destruct Hs as (? & ? & ? & ?). repeat split; assumption.
Qed.

(** ** A recipe that is not cached *)

Lemma plain_class_creates_object name ps : creates_object (plain_class name ps).
Proof.
  intros kw a v. simpl. destruct (bind_args ps kw); [| discriminate].
  intros [= <-]. reflexivity.
Qed.

(** A resolution of a symbol whose recipe is not cached ends with a call
    of the target, and returns what the call returned. *)
Lemma resolve_transient_Ok Σ c s fuel st r d v st' :
  entries c st !! s = Some r -> dep_store st !! r = Some d ->
  cached d = false ->
  resolve Σ fuel c s st = (Ok v, st') ->
  exists kw sti cl,
    later_store st sti /\ Σ !! target d = Some cl /\
    call cl kw (next_addr sti) = Return v /\
    st' = MkState (dict_store sti) (dep_store sti) (S (next_addr sti))
                  (trace sti ++ [(target d, kw)]).
Proof.
  intros He Hd Hc H. destruct fuel as [| fuel]; [discriminate |].
  rewrite (resolve_present Σ fuel c s st r d He Hd) in H.
  apply bind_Ok in H as (kw & sti & Hloop & Hdr).
  pose proof (forward_resolve_types (resolve Σ fuel c) (types d)
                (forward_resolve Σ fuel c)
                (kwargs_update ∅ (defaults d)) st) as L.
  rewrite Hloop in L. simpl in L.
  assert (dep_store sti !! r = Some d) as Hd1
    by (apply (later_settled _ _ L r d Hd); left; exact Hc).
  rewrite (Dependency_resolve_transient Σ r kw sti d Hd1 Hc) in Hdr.
  unfold invoke in Hdr. destruct (Σ !! target d) as [cl |]; [| discriminate].
  destruct (call cl kw (next_addr sti)) as [w | e] eqn:Hcall; [| discriminate].
  injection Hdr as <- <-. exists kw, sti, cl. auto.
Qed.

(** A class without parameters, called without arguments. *)
Lemma invoke_nullary_class Σ f cls st :
  Σ !! f = Some (plain_class cls []) ->
  invoke Σ f ∅ st =
    (Ok (VInst (next_addr st) cls []),
     MkState (dict_store st) (dep_store st) (S (next_addr st))
             (trace st ++ [(f, ∅)])).
Proof. intros H. unfold invoke. rewrite H. reflexivity. Qed.

(** The resolution of a symbol whose recipe is not cached and whose
    target is a class without parameters returns a new instance. *)
Lemma resolve_nullary_transient Σ c s fuel st r d cls :
  entries c st !! s = Some r -> dep_store st !! r = Some d ->
  cached d = false -> types d = [] -> defaults d = [] ->
  Σ !! target d = Some (plain_class cls []) ->
  resolve Σ (S fuel) c s st =
    (Ok (VInst (next_addr st) cls []),
     MkState (dict_store st) (dep_store st) (S (next_addr st))
             (trace st ++ [(target d, ∅)])).
Proof.
  intros He Hd Hc Hty Hdf Hcl.
  rewrite (resolve_present Σ fuel c s st r d He Hd), Hty, Hdf. simpl.
  unfold bind at 1, ret.
  rewrite (Dependency_resolve_transient Σ r ∅ st d Hd Hc).
  apply invoke_nullary_class. exact Hcl.
Qed.

(** The same for a recipe that was just registered, cached or not. *)
Lemma resolve_nullary_fresh Σ c s fuel st r cls cache :
  entries c st !! s = Some r ->
  dep_store st !! r = Some (MkDependency cls cache VNone [] []) ->
  Σ !! cls = Some (plain_class cls []) ->
  exists st',
    resolve Σ (S fuel) c s st = (Ok (VInst (next_addr st) cls []), st') /\
    dict_store st' = dict_store st /\ next_addr st' = S (next_addr st) /\
    forall r', r' <> r -> dep_store st' !! r' = dep_store st !! r'.
Proof.
  intros He Hd Hcl.
  rewrite (resolve_present Σ fuel c s st r _ He Hd). simpl.
  unfold bind at 1, ret. destruct cache.
  - rewrite (Dependency_resolve_miss Σ r ∅ st _ Hd eq_refl eq_refl). simpl.
    rewrite (invoke_nullary_class Σ cls cls st Hcl).
    eexists. split; [reflexivity |]. simpl. split; [reflexivity |].
    split; [reflexivity |]. intros r' Hr'.
    apply lookup_insert_ne. congruence.
  - rewrite (Dependency_resolve_transient Σ r ∅ st _ Hd eq_refl). simpl.
    rewrite (invoke_nullary_class Σ cls cls st Hcl).
    eexists. split; [reflexivity |]. simpl. auto.
Qed.

(** ** A class with a parameter of a registered class *)



Lemma annotated_names ps n T : (n, T) ∈ annotated ps -> n ∈ map p_name ps.
Proof.
  unfold annotated. intros H. apply list_elem_of_omap in H as (p & Hp & E).
  destruct (p_annotation p); [| discriminate]. injection E as <- <-.
  apply list_elem_of_fmap. exists p. auto.
Qed.

Lemma annotated_NoDup ps : NoDup (map p_name ps) -> NoDup (annotated ps).*1.
Proof.
  induction ps as [| p ps IH]; intros H; simpl.
  - constructor.
  - apply NoDup_cons in H as [Hp H]. unfold annotated. simpl.
    destruct (p_annotation p) as [T |]; [| apply IH; exact H].
    simpl. apply NoDup_cons. split; [| apply IH; exact H].
    intros Hin. apply Hp. apply list_elem_of_fmap in Hin as ([n T'] & -> & Hin).
    eapply annotated_names. exact Hin.
Qed.

Section Injection.

Variable Σ : gmap sym callable.
Variable c : Container.
Variables A B : sym.
Variable b : string.
Variables psA psB : list param.
Variables rA rB : addr.

Hypothesis HA : Σ !! A = Some (plain_class A psA).
Hypothesis HB : Σ !! B = Some (plain_class B psB).
Hypothesis Hnd : NoDup (map p_name psA).
Hypothesis Hb : (b, B) ∈ annotated psA.




End Injection.

(** ** The binder *)

Section BinderFacts.

Variable Σ : gmap sym callable.
Variable isinstance : value -> sym -> bool.
Variable registry : Container.
Variable fuel : nat.

Lemma forward_fallback f : forward (fallback Σ registry fuel f).
Proof.
  unfold fallback. apply forward_bind; [apply forward_has |].
  intros found. apply forward_bind; [| intros v; apply forward_ret].
  destruct found; [apply forward_resolve | apply forward_ret].
Qed.

Lemma forward_fill_fields fields bound :
  forward (fill_fields Σ registry fuel fields bound).
Proof.
  induction fields as [| f rest IH]; simpl.
  - apply forward_ret.
  - apply forward_bind.
    + destruct (bound !! f_name f); [apply forward_ret | apply forward_fallback].
    + intros o. apply forward_bind; [exact IH |]. intros. apply forward_ret.
Qed.

(** The registry comes first: when the declared type is registered and
    resolves, the fallback is the resolved value, default or not. *)
Lemma fallback_registered f st v st' :
  is_Some (entries registry st !! f_type f) ->
  resolve Σ fuel registry (f_type f) st = (Ok v, st') ->
  is_none v = false ->
  fallback Σ registry fuel f st = (Ok (Some v), st').
Proof.
  intros Hreg Hres Hv. unfold fallback.
  rewrite (bind_run _ _ _ true st); [| apply has_true; exact Hreg].
  rewrite (bind_run _ _ _ _ _ Hres). unfold ret. rewrite Hv. reflexivity.
Qed.

(** What the fallback returns, from its result. *)
Lemma fallback_Ok f st o st' :
  fallback Σ registry fuel f st = (Ok o, st') ->
  (entries registry st !! f_type f = None /\ o = f_default f /\ st' = st) \/
  (is_Some (entries registry st !! f_type f) /\
   exists v, resolve Σ fuel registry (f_type f) st = (Ok v, st') /\
             o = if is_none v then f_default f else Some v).
Proof.
  unfold fallback. intros H. apply bind_Ok in H as (found & st1 & Hhas & H).
  rewrite has_spec in Hhas. injection Hhas as <- <-.
  apply bind_Ok in H as (v & st2 & Hv & H). injection H as <- <-.
  destruct (entries registry st !! f_type f) as [r |] eqn:E.
  - right. split; [eauto |]. exists v. split; [| reflexivity].
    rewrite bool_decide_eq_true_2 in Hv by eauto. exact Hv.
  - left. rewrite bool_decide_eq_false_2 in Hv by (intros [? ?]; discriminate).
    injection Hv as <- <-. auto.
Qed.

(** Field by field, what [fill_fields] returns. *)
Lemma fill_fields_Ok fields bound st filled st' :
  fill_fields Σ registry fuel fields bound st = (Ok filled, st') ->
  Forall2 (fun f nv =>
             nv.1 = f_name f /\
             match bound !! f_name f with
             | Some v => nv.2 = Some v
             | None => exists sta stb,
                 later_store st sta /\
                 fallback Σ registry fuel f sta = (Ok nv.2, stb)
             end) fields filled.
Proof.
  revert st filled. induction fields as [| f rest IH]; intros st filled H.
  - injection H as <- <-. constructor.
  - simpl in H. apply bind_Ok in H as (o & st1 & Ho & H).
    apply bind_Ok in H as (filled' & st2 & Hrest & H). injection H as <- <-.
    assert (later_store st st1) as L.
    { destruct (bound !! f_name f).
      - injection Ho as <- <-. reflexivity.
      - pose proof (forward_fallback f st) as L. rewrite Ho in L. exact L. }
    constructor.
    + split; [reflexivity |]. simpl. destruct (bound !! f_name f) as [v |].
      * injection Ho as <- <-. reflexivity.
      * exists st, st1. split; [reflexivity | exact Ho].
    + eapply Forall2_impl; [apply (IH _ _ Hrest) |].
      intros f' nv [Hn Hv]. split; [exact Hn |].
      destruct (bound !! f_name f'); [exact Hv |].
      destruct Hv as (sta & stb & La & Hf). exists sta, stb.
      split; [etransitivity; eassumption | exact Hf].
Qed.

Lemma missing_arguments_elem filled n :
  n ∈ missing_arguments filled <-> (n, None) ∈ filled.
Proof.
  unfold missing_arguments. rewrite list_elem_of_omap. split.
  - intros ([n' o] & Hin & E). simpl in E. destruct o; [discriminate |].
    injection E as ->. exact Hin.
  - intros Hin. exists (n, None). auto.
Qed.

Lemma resolved_values_elem filled n v :
  (n, v) ∈ resolved_values filled <-> (n, Some v) ∈ filled.
Proof.
  unfold resolved_values. rewrite list_elem_of_omap. split.
  - intros ([n' o] & Hin & E). simpl in E. destruct o; [| discriminate].
    injection E as -> ->. exact Hin.
  - intros Hin. exists (n, Some v). auto.
Qed.

Lemma resolved_values_names filled :
  (resolved_values filled).*1 `sublist_of` filled.*1.
Proof.
  induction filled as [| [n [v |]] filled IH]; simpl.
  - constructor.
  - unfold resolved_values. simpl. apply sublist_skip. exact IH.
  - unfold resolved_values. simpl. apply sublist_cons. exact IH.
Qed.

Lemma fill_fields_names fields bound st filled st' :
  fill_fields Σ registry fuel fields bound st = (Ok filled, st') ->
  filled.*1 = map f_name fields.
Proof.
  intros H. apply fill_fields_Ok in H.
  induction H as [| f nv fields filled [Hn _] _ IH]; [reflexivity |].
  rewrite fmap_cons, Hn, IH. reflexivity.
Qed.

(** The entry of [filled] that belongs to a declared field. *)
Lemma fill_fields_field fields bound st filled st' f :
  fill_fields Σ registry fuel fields bound st = (Ok filled, st') ->
  f ∈ fields ->
  exists o,
    (f_name f, o) ∈ filled /\
    match bound !! f_name f with
    | Some v => o = Some v
    | None => exists sta stb,
        later_store st sta /\ fallback Σ registry fuel f sta = (Ok o, stb)
    end.
Proof.
  intros H Hf. apply fill_fields_Ok in H.
  apply list_elem_of_lookup in Hf as [i Hi].
  destruct (Forall2_lookup_l _ _ _ _ _ H Hi) as ([n o] & Hnv & Hn & Ho).
  simpl in Hn, Ho. subst n. exists o. split; [| exact Ho].
  apply list_elem_of_lookup. eauto.
Qed.

End BinderFacts.

Lemma bind_positional_names fields args positional :
  bind_positional fields args = inr positional ->
  positional.*1 = take (length args) (map f_name fields).
Proof.
  revert fields positional.
  induction args as [| v args IH]; intros fields positional H.
  - destruct fields; injection H as <-; reflexivity.
  - destruct fields as [| f fields]; [discriminate |]. simpl in H.
    destruct (bind_positional fields args) as [e | rest] eqn:E; [discriminate |].
    injection H as <-. simpl. f_equal. apply IH. exact E.
Qed.

Lemma bind_named_unbound cls names positional named acc bound k :
  bind_named cls names positional named acc = inr bound ->
  acc !! k = None -> k ∉ named.*1 -> bound !! k = None.
Proof.
  revert acc. induction named as [| [k' v] named IH]; intros acc H Hacc Hk.
  - injection H as <-. exact Hacc.
  - simpl in H, Hk. apply not_elem_of_cons in Hk as [Hne Hk].
    destruct (bool_decide (is_Some (positional !! k'))); [discriminate |].
    destruct (bool_decide (k' ∈ names)); [| discriminate].
    apply (IH _ H); [| exact Hk]. rewrite lookup_insert_ne by congruence.
    exact Hacc.
Qed.

Lemma pair_unique {A} (l : list (string * A)) n x y :
  NoDup l.*1 -> (n, x) ∈ l -> (n, y) ∈ l -> x = y.
Proof.
  intros Hnd Hx Hy. apply (assoc_Some l n x Hnd) in Hx.
  apply (assoc_Some l n y Hnd) in Hy. congruence.
Qed.

(** The fallback and [fill_fields] keep what every resolution keeps. *)
Lemma fallback_preserves Σ registry fuel (P : State -> Prop) f st :
  (forall s st, P st -> P (resolve Σ fuel registry s st).2) ->
  P st -> P (fallback Σ registry fuel f st).2.
Proof.
  intros HP Hst. unfold fallback, bind. rewrite has_spec.
  destruct (bool_decide (is_Some (entries registry st !! f_type f))).
  - specialize (HP (f_type f) st Hst).
    destruct (resolve Σ fuel registry (f_type f) st) as [[v | e |] st1];
      exact HP.
  - exact Hst.
Qed.

Lemma fill_fields_field_preserves Σ registry fuel (P : State -> Prop) fields :
  (forall s st, P st -> P (resolve Σ fuel registry s st).2) ->
  forall bound st filled st' f,
    P st ->
    fill_fields Σ registry fuel fields bound st = (Ok filled, st') ->
    f ∈ fields ->
    exists o,
      (f_name f, o) ∈ filled /\
      match bound !! f_name f with
      | Some v => o = Some v
      | None => exists sta stb,
          P sta /\ later_store st sta /\
          fallback Σ registry fuel f sta = (Ok o, stb)
      end.
Proof.
  intros HP. induction fields as [| f0 rest IH];
    intros bound st filled st' f Hst H Hin; [inversion Hin |].
  simpl in H. apply bind_Ok in H as (o & st1 & Ho & H).
  apply bind_Ok in H as (filled' & st2 & Hrest & H). injection H as <- <-.
  assert (later_store st st1 /\ P st1) as [L Hst1].
  { destruct (bound !! f_name f0).
    - injection Ho as <- <-. split; [reflexivity | exact Hst].
    - split.
      + pose proof (forward_fallback Σ registry fuel f0 st) as L.
        rewrite Ho in L. exact L.
      + pose proof (fallback_preserves Σ registry fuel P f0 st HP Hst) as H'.
        rewrite Ho in H'. exact H'. }
  apply elem_of_cons in Hin as [-> | Hin].
  - exists o. split; [left |]. destruct (bound !! f_name f0) as [v |].
    + injection Ho as <- <-. reflexivity.
    + exists st, st1. split; [exact Hst |]. split; [reflexivity | exact Ho].
  - destruct (IH bound st1 filled' st2 f Hst1 Hrest Hin) as (o' & Hin' & Ho').
    exists o'. split; [right; exact Hin' |].
    destruct (bound !! f_name f); [exact Ho' |].
    destruct Ho' as (sta & stb & Pa & La & Hfb). exists sta, stb.
    split; [exact Pa |]. split; [etransitivity; eassumption | exact Hfb].
Qed.

(** ** What a recipe has cached *)

Section Caches.

Variable Σ : gmap sym callable.
Variable c : Container.
Variable r : addr.
Variable f : sym.
Variable cl : callable.
Variable Q : value -> Prop.
Variable n0 : addr.

Hypothesis Hf : Σ !! f = Some cl.
Hypothesis HQ : forall kw a v, n0 <= a -> call cl kw a = Return v -> Q v.

Lemma caches_invoke g kw st :
  caches r f Q n0 st ->
  caches r f Q n0 (invoke Σ g kw st).2 /\
  dep_store (invoke Σ g kw st).2 = dep_store st /\
  forall v, (invoke Σ g kw st).1 = Ok v -> g = f -> Q v.
Proof.
  intros H.
  assert (caches r f Q n0
            (MkState (dict_store st) (dep_store st) (S (next_addr st))
                     (trace st ++ [(g, kw)]))) as Hcall.
  { destruct H as [Hn Hd]. split; simpl; [lia | exact Hd]. }
  unfold invoke. destruct (Σ !! g) as [cg |] eqn:Hg.
  - destruct (call cg kw (next_addr st)) as [v | e] eqn:Hc; simpl.
    + split; [exact Hcall |]. split; [reflexivity |].
      intros v' [= <-] ->. rewrite Hf in Hg. injection Hg as <-.
      apply (HQ kw (next_addr st)); [apply H | exact Hc].
    + split; [exact Hcall |]. split; [reflexivity | discriminate].
  - simpl. split; [exact H |]. split; [reflexivity | discriminate].
Qed.

Lemma caches_Dependency_resolve r' kw st :
  caches r f Q n0 st ->
  caches r f Q n0 (Dependency_resolve Σ r' kw st).2 /\
  forall v, (Dependency_resolve Σ r' kw st).1 = Ok v -> r' = r -> Q v.
Proof.
  intros H. destruct (dep_store st !! r') as [d' |] eqn:Hd'.
  2:{ rewrite Dependency_resolve_dangling by exact Hd'.
      split; [exact H | discriminate]. }
  assert (r' = r -> target d' = f) as Htarget.
  { intros ->. destruct H as (_ & d & Hd & Ht & _). congruence. }
  destruct (caches_invoke (target d') kw st H) as (H1 & Hdep & H2).
  destruct (cached d') eqn:Hc.
  2:{ rewrite (Dependency_resolve_transient Σ r' kw st d' Hd' Hc).
      split; [exact H1 |]. intros v Hv E. exact (H2 v Hv (Htarget E)). }
  destruct (truthy (instance d')) eqn:Htr.
  - rewrite (Dependency_resolve_hit Σ r' kw st d' Hd' Hc Htr).
    split; [exact H |]. intros v [= <-] ->.
    destruct H as (_ & d & Hd & _ & Hi). rewrite Hd in Hd'.
    injection Hd' as <-. destruct Hi as [Hi | Hi]; [| exact Hi].
    rewrite Hi in Htr. discriminate.
  - rewrite (Dependency_resolve_miss Σ r' kw st d' Hd' Hc Htr).
    destruct (invoke Σ (target d') kw st) as [[v | e |] st1]; simpl in *;
      [| split; [exact H1 | discriminate] ..].
    split.
    + destruct H1 as (Hn & d & Hd & Ht & Hi). split; [exact Hn |].
      unfold store_instance. simpl. rewrite Hdep in Hd.
      destruct (decide (r' = r)) as [-> | Hne].
      * exists (set_instance d' v). rewrite lookup_insert_eq.
        split; [reflexivity |]. split; [exact (Htarget eq_refl) |].
        right. exact (H2 v eq_refl (Htarget eq_refl)).
      * exists d. rewrite lookup_insert_ne by exact Hne. rewrite Hdep. auto.
    + intros v' [= <-] E. exact (H2 v eq_refl (Htarget E)).
Qed.

Lemma caches_resolve fuel :
  forall s st,
    caches r f Q n0 st ->
    caches r f Q n0 (resolve Σ fuel c s st).2 /\
    forall v, (resolve Σ fuel c s st).1 = Ok v ->
              entries c st !! s = Some r -> Q v.
Proof.
  induction fuel as [| fuel IH]; intros s st H;
    [split; [exact H | discriminate] |].
  destruct (entries c st !! s) as [r' |] eqn:He.
  2:{ rewrite resolve_absent by exact He. split; [exact H | discriminate]. }
  destruct (dep_store st !! r') as [d |] eqn:Hd.
  2:{ rewrite (resolve_dangling _ _ _ _ _ r') by assumption.
      split; [exact H | discriminate]. }
  rewrite (resolve_present Σ fuel c s st r' d He Hd). unfold bind.
  pose proof (resolve_types_preserves (caches r f Q n0) (resolve Σ fuel c)
                (fun s' st' H' => proj1 (IH s' st' H'))
                (types d) (kwargs_update ∅ (defaults d)) st H) as H1.
  destruct (resolve_types (resolve Σ fuel c) (types d)
              (kwargs_update ∅ (defaults d)) st) as [[kw | e |] st1];
    simpl in *; [| split; [exact H1 | discriminate] ..].
  destruct (caches_Dependency_resolve r' kw st1 H1) as [H2 H3].
  split; [exact H2 |]. intros v Hv [= ->]. exact (H3 v Hv eq_refl).
Qed.


End Caches.



(** ** Signatures with parameter kinds *)

Lemma map_unique {A B} (g : A -> B) (l : list A) x y :
  NoDup (map g l) -> x ∈ l -> y ∈ l -> g x = g y -> x = y.
Proof.
  induction l as [| z l IH]; intros Hnd Hx Hy E; [inversion Hx |].
  apply NoDup_cons in Hnd as [Hz Hnd].
  assert (forall w, w ∈ l -> g w <> g z) as Hne.
  { intros w Hw Ew. apply Hz. rewrite <- Ew.
    apply list_elem_of_fmap. exists w. auto. }
  apply elem_of_cons in Hx as [-> | Hx], Hy as [-> | Hy].
  - reflexivity.
  - exfalso. apply (Hne y Hy). symmetry. exact E.
  - exfalso. exact (Hne x Hx E).
  - apply IH; assumption.
Qed.

Lemma ordinary_parameters ps : map snd (ordinary ps) = ps.
Proof.
  unfold ordinary. induction ps as [| p ps IH]; [reflexivity |].
  simpl. rewrite IH. reflexivity.
Qed.

Lemma keyword_names_ordinary ps : keyword_names (ordinary ps) = map p_name ps.
Proof.
  unfold keyword_names, ordinary. induction ps as [| p ps IH]; [reflexivity |].
  cbn. f_equal. exact IH.
Qed.




(** A parameter that stands for one argument and gets none. *)
Lemma binds_missing (sig : Signature) kw k p :
  (k, p) ∈ sig -> single k = true -> kw !! p_name p = None ->
  p_default p = None -> binds sig kw = false.
Proof.
  intros Hin Hk Hkw Hdf. unfold binds. apply andb_false_iff. right.
  apply not_true_is_false. intros H.
  rewrite forallb_forall in H. specialize (H (k, p)).
  rewrite <- list_elem_of_In in H. specialize (H Hin).
  unfold supplied in H. simpl in H. rewrite Hkw, Hdf in H.
  rewrite !bool_decide_eq_false_2 in H by (intros [? ?]; discriminate).
  destruct k; discriminate.
Qed.


Lemma bind_params_unsupplied ps kw :
  forallb (supplied kw) (ordinary ps) = false -> bind_params ps kw = None.
Proof.
  induction ps as [| p ps IH]; [discriminate |]. simpl.
  unfold supplied at 1. simpl. intros H.
  destruct (kw !! p_name p) as [v |] eqn:Hkw.
  - rewrite bool_decide_eq_true_2 in H by eauto. simpl in H.
    rewrite (IH H). destruct (p_default p); reflexivity.
  - rewrite (bool_decide_eq_false_2 (is_Some None)) in H
      by (intros [? ?]; discriminate).
    simpl in H. destruct (p_default p) as [v |] eqn:Hdf; [| reflexivity].
    rewrite bool_decide_eq_true_2 in H by eauto. simpl in H.
    rewrite (IH H). reflexivity.
Qed.

(** A class of ordinary parameters is a callable with its signature. *)
Lemma plain_class_has_signature cls ps :
  has_signature (ordinary ps) (plain_class cls ps).
Proof.
  split; [symmetry; apply ordinary_parameters |]. intros kw a H.
  exists "arguments do not match the signature". simpl.
  assert (bind_args ps kw = None) as ->; [| reflexivity].
  unfold bind_args. unfold binds in H.
  rewrite keyword_names_ordinary in H.
  destruct (bool_decide (dom kw ⊆ list_to_set (map p_name ps)));
    [| reflexivity].
  rewrite orb_true_r in H. simpl in H. apply bind_params_unsupplied. exact H.
Qed.


(** * Part III: the claims *)

(** ** C1: a cached recipe returns its first instance *)

(** C1, on the code: the target of a cached recipe returned an empty
    list, which is falsy.  The second [resolve] calls the target again
    and returns another list: the two results have different identities
    and the trace holds two calls. *)
Lemma cached_falsy_instance_rebuilt :
  (cached_queue_twice imported_state).1 = Ok (VList 4 [], VList 5 []) /\
  (trace (cached_queue_twice imported_state).2).*1
  = ["make_queue"; "make_queue"].
Proof. vm_compute. split; reflexivity. Qed.

(** X1. What holds of C1 on the code.  A resolution of a cached symbol
    has returned a truthy value whose truthiness is fixed: an instance of
    a class without [__bool__] and [__len__], a number, a string; not a
    list, which a target that is passed it may empty.  Then every later
    resolution of that symbol that returns, whatever was resolved in
    between, returns that same object, and its last step calls no target:
    it ends in the store its parameter loop left. *)
Theorem cached_truthy_identical Σ (c : Container) (s : sym) (st : State)
    (r : addr) (d : Dependency) (fuel : nat) (v : value) (st1 : State) :
  entries c st !! s = Some r -> dep_store st !! r = Some d ->
  cached d = true ->
  resolve Σ fuel c s st = (Ok v, st1) -> truthy v = true ->
  fixed_truth v = true ->
  forall fuel1 symbols fuel2 v' st3,
    resolve Σ (S fuel2) c s (resolve_all Σ fuel1 c symbols st1).2
    = (Ok v', st3) ->
    v' = v /\
    exists kw,
      resolve_types (resolve Σ fuel2 c) (types d)
        (kwargs_update ∅ (defaults d)) (resolve_all Σ fuel1 c symbols st1).2
      = (Ok kw, st3).
Proof.
  intros He Hd Hc H1 Hv _ fuel1 symbols fuel2 v' st3 H2.
  destruct (cached_instance_stored Σ c s fuel st r d v st1 He Hd Hc H1)
    as (d' & Hd' & (_ & Hc' & Hty & Hdf) & Hi).
  pose proof (forward_resolve Σ fuel c s st) as L1. rewrite H1 in L1.
  pose proof (forward_resolve_all Σ c fuel1 symbols st1) as L2.
  set (st2 := (resolve_all Σ fuel1 c symbols st1).2) in *. simpl in L1.
  assert (entries c st2 !! s = Some r) as He2.
  { unfold entries in *.
    rewrite (later_dicts _ _ L2), (later_dicts _ _ L1). exact He. }
  assert (settled d') as Hs by (right; rewrite Hi; exact Hv).
  pose proof (later_settled _ _ L2 r d' Hd' Hs) as Hd2.
  rewrite (resolve_present Σ fuel2 c s st2 r d' He2 Hd2) in H2.
  apply bind_Ok in H2 as (kw & sti & Hloop & Hdr).
  destruct (cached_instance_returned Σ c s fuel2 st2 r d' kw sti)
    as [_ Hdi]; try assumption; [congruence | rewrite Hi; exact Hv |].
  rewrite (Dependency_resolve_hit Σ r kw sti d' Hdi) in Hdr;
    [| congruence | rewrite Hi; exact Hv].
  injection Hdr as <- <-. split; [exact Hi |].
  exists kw. rewrite Hty, Hdf. exact Hloop.
Qed.

(** X1 at work: the class [B] registered with [cached=True]; three
    resolutions, one instance. *)
Lemma cached_truthy_identical_witness :
  let st := (register demo demo_container "B" VNone true demo_state).2 in
  let st1 := (resolve demo 1 demo_container "B" st).2 in
  let st2 := (resolve_all demo 1 demo_container ["B"] st1).2 in
  resolve demo 1 demo_container "B" st = (Ok (VInst 4 "B" []), st1) /\
  (resolve demo 1 demo_container "B" st2).1 = Ok (VInst 4 "B" []).
Proof.
  intros st st1 st2. split; [reflexivity |].
  destruct (resolve demo 1 demo_container "B" st2) as [o st3] eqn:E.
  assert (exists v', o = Ok v') as [v' ->]
    by (vm_compute in E; injection E as <- _; eauto).
  destruct (cached_truthy_identical demo demo_container "B" st 3
              (MkDependency "B" true VNone [] []) 1 (VInst 4 "B" []) st1
              eq_refl eq_refl eq_refl eq_refl eq_refl eq_refl 1 ["B"] 0 v' st3
              E)
    as [-> _].
  reflexivity.
Defined.

(** ** C2: registries created with the default argument *)

(** C2, on the code: two containers created with the [dependencies]
    argument omitted share their entries.  After [B] is registered in the
    first, the second has [B] and resolves it to a [B] instance. *)
Lemma default_containers_not_isolated :
  (two_default_containers imported_state).1 = Ok (true, VInst 5 "B" []).
Proof. vm_compute. reflexivity. Qed.

(** X2. What holds of C2 on the code.  Two containers that are each
    given a dict of their own ([Container({})]) are isolated: what is
    registered in the first is not found in the second. *)
Theorem own_dicts_isolated Σ (st st1 st2 st3 st4 st5 : State) (d1 d2 : addr)
    (c1 c2 : Container) (s : sym) (r : value) (cache : bool) :
  new_dict st = (Ok d1, st1) -> Container_init (Some d1) st1 = (Ok c1, st2) ->
  new_dict st2 = (Ok d2, st3) -> Container_init (Some d2) st3 = (Ok c2, st4) ->
  register Σ c1 s r cache st4 = (Ok tt, st5) ->
  has c1 s st5 = (Ok true, st5) /\
  has c2 s st5 = (Ok false, st5) /\
  forall fuel, resolve Σ (S fuel) c2 s st5 = (Ok VNone, st5).
Proof.
  unfold new_dict, Container_init.
  intros [= <- <-] [= <- <-] [= <- <-] [= <- <-] Hreg.
  pose proof (register_entries _ _ _ _ _ _ _ Hreg) as E1.
  assert (entries (MkContainer (S (S (S (next_addr st))))
                               (S (S (next_addr st)))) st5 !! s = None) as E2.
  { erewrite register_other_dict; [| | exact Hreg]; [| simpl; lia].
    unfold entries. simpl. rewrite lookup_insert_eq. reflexivity. }
  split; [| split].
  - apply has_true. rewrite E1, lookup_insert_eq. eauto.
  - apply has_false. exact E2.
  - intros fuel. apply resolve_absent. exact E2.
Qed.

(** X2 at work: [Container({})] twice, then [B] registered in the
    first. *)
Lemma own_dicts_isolated_witness :
  let st1 := (new_dict demo_state).2 in
  let st2 := (Container_init (Some 3) st1).2 in
  let st3 := (new_dict st2).2 in
  let st4 := (Container_init (Some 5) st3).2 in
  let st5 := (register demo (MkContainer 4 3) "B" VNone false st4).2 in
  has (MkContainer 4 3) "B" st5 = (Ok true, st5) /\
  has (MkContainer 6 5) "B" st5 = (Ok false, st5).
Proof.
  intros st1 st2 st3 st4 st5.
  destruct (own_dicts_isolated demo demo_state st1 st2 st3 st4 st5 3 5
              (MkContainer 4 3) (MkContainer 6 5) "B" VNone false
              eq_refl eq_refl eq_refl eq_refl eq_refl) as (Hyes & Hno & _).
  split; [exact Hyes | exact Hno].
Defined.

(** ** C3: how the arguments of the target are assembled *)



(** ** C4: recursive resolution *)






(** ** C5: a symbol that is not registered *)

(** C5. For a symbol that is not registered in a registry, [resolve]
    returns the not-found value [None]; it raises nothing and leaves the
    store as it was, so any number of successive calls all answer [None];
    and registering any other symbol in that registry does not change the
    answer. *)
Theorem resolve_unregistered Σ (c : Container) (s : sym) (st : State) :
  has c s st = (Ok false, st) ->
  (forall fuel, resolve Σ (S fuel) c s st = (Ok VNone, st)) /\
  (forall fuel n,
     resolve_all Σ (S fuel) c (replicate n s) st
     = (Ok (replicate n VNone), st)) /\
  (forall s' r cache st',
     s' <> s -> register Σ c s' r cache st = (Ok tt, st') ->
     has c s st' = (Ok false, st') /\
     forall fuel, resolve Σ (S fuel) c s st' = (Ok VNone, st')).
Proof.
  intros H. apply has_false in H. split; [| split].
  - intros fuel. apply resolve_absent. exact H.
  - intros fuel n. apply resolve_all_absent. exact H.
  - intros s' r cache st' Hne Hreg.
    assert (entries c st' !! s = None) as H'.
    { rewrite (register_entries _ _ _ _ _ _ _ Hreg).
      rewrite lookup_insert_ne by exact Hne. exact H. }
    split; [apply has_false; exact H' |].
    intros fuel. apply resolve_absent. exact H'.
Qed.

(** C5 at work: nothing is registered yet, so [A] is not found, and it
    is still not found once [B] is registered. *)
Lemma resolve_unregistered_witness :
  resolve demo 1 demo_container "A" demo_state = (Ok VNone, demo_state) /\
  (forall st',
     register demo demo_container "B" VNone false demo_state = (Ok tt, st') ->
     resolve demo 1 demo_container "A" st' = (Ok VNone, st')).
Proof.
  destruct (resolve_unregistered demo demo_container "A" demo_state)
    as (Hnow & _ & Hthen).
  - vm_compute. reflexivity.
  - split; [apply Hnow |]. intros st' H.
    apply (Hthen "B" VNone false st'); [discriminate | exact H].
Defined.

(** ** C6: a recipe that is not cached *)

(** C6 as stated fails: the recipe is not cached and its target is called
    by each of the two resolutions, yet both return the one [Config]
    object the factory hands out. *)
Lemma transient_factory_same_instance :
  (shared_config_twice imported_state).1 = Ok (the_config, the_config) /\
  (trace (shared_config_twice imported_state).2).*1
  = ["get_config"; "get_config"].
Proof. vm_compute. split; reflexivity. Qed.

(** Two successive resolutions of a symbol whose recipe is not cached,
    when both return. *)
Lemma transient_resolves_twice Σ c s st r d cl fuel1 fuel2 v1 v2 st1 st2 :
  entries c st !! s = Some r -> dep_store st !! r = Some d ->
  cached d = false -> Σ !! target d = Some cl ->
  resolve Σ fuel1 c s st = (Ok v1, st1) ->
  resolve Σ fuel2 c s st1 = (Ok v2, st2) ->
  exists (kw1 kw2 : kwargs) (a1 a2 : addr) (log1 log2 : list (sym * kwargs)),
    trace st1 = (log1 ++ [(target d, kw1)])%list /\
    trace st `prefix_of` log1 /\
    call cl kw1 a1 = Return v1 /\
    trace st2 = (log2 ++ [(target d, kw2)])%list /\
    trace st1 `prefix_of` log2 /\
    call cl kw2 a2 = Return v2 /\ a1 < a2.
Proof.
  intros He Hd Hc Hcl H1 H2.
  pose proof (forward_resolve Σ fuel1 c s st) as L1. rewrite H1 in L1.
  simpl in L1.
  assert (entries c st1 !! s = Some r) as He1
    by (unfold entries in *; rewrite (later_dicts _ _ L1); exact He).
  assert (dep_store st1 !! r = Some d) as Hd1
    by (apply (later_settled _ _ L1 r d Hd); left; exact Hc).
  destruct (resolve_transient_Ok Σ c s fuel1 st r d v1 st1 He Hd Hc H1)
    as (kw1 & sti1 & cl1 & La & Hcl1 & Hcall1 & ->).
  destruct (resolve_transient_Ok Σ c s fuel2 _ r d v2 st2 He1 Hd1 Hc H2)
    as (kw2 & sti2 & cl2 & Lb & Hcl2 & Hcall2 & ->).
  rewrite Hcl in Hcl1, Hcl2. injection Hcl1 as <-. injection Hcl2 as <-.
  assert (next_addr sti1 < next_addr sti2) as Hlt
    by (pose proof (later_addr _ _ Lb) as Hle; simpl in Hle; lia).
  exists kw1, kw2, (next_addr sti1), (next_addr sti2), (trace sti1),
    (trace sti2). simpl.
  split; [reflexivity |]. split; [apply (later_trace _ _ La) |].
  split; [exact Hcall1 |]. split; [reflexivity |].
  split; [apply (later_trace _ _ Lb) |]. split; [exact Hcall2 | exact Hlt].
Qed.

(** C6, amended.  For a recipe that is not cached, each of two successive
    resolutions that return has called the target (the call is the last
    entry of the trace) and returns what that call returned; when the
    target returns the object it creates, as a class does, the two
    results have different identities.  When the target is a class
    without parameters, the two resolutions do return, with any positive
    recursion budget, two instances of different identities. *)
Theorem transient_resolves_distinct Σ (c : Container) (s : sym) (st : State)
    (r : addr) (d : Dependency) (cl : callable) :
  entries c st !! s = Some r -> dep_store st !! r = Some d ->
  cached d = false -> Σ !! target d = Some cl ->
  (forall fuel1 fuel2 v1 v2 st1 st2,
     resolve Σ fuel1 c s st = (Ok v1, st1) ->
     resolve Σ fuel2 c s st1 = (Ok v2, st2) ->
     (exists (kw1 kw2 : kwargs) (a1 a2 : addr)
             (log1 log2 : list (sym * kwargs)),
        trace st1 = (log1 ++ [(target d, kw1)])%list /\
        trace st `prefix_of` log1 /\
        call cl kw1 a1 = Return v1 /\
        trace st2 = (log2 ++ [(target d, kw2)])%list /\
        trace st1 `prefix_of` log2 /\
        call cl kw2 a2 = Return v2 /\ a1 < a2) /\
     (creates_object cl ->
      exists a1 a2, obj_id v1 = Some a1 /\ obj_id v2 = Some a2 /\ a1 <> a2)) /\
  (forall cls,
     cl = plain_class cls [] -> types d = [] -> defaults d = [] ->
     forall fuel1 fuel2,
     exists a1 a2 st1 st2,
       resolve Σ (S fuel1) c s st = (Ok (VInst a1 cls []), st1) /\
       resolve Σ (S fuel2) c s st1 = (Ok (VInst a2 cls []), st2) /\
       a1 <> a2).
Proof.
  intros He Hd Hc Hcl. split.
  - intros fuel1 fuel2 v1 v2 st1 st2 H1 H2.
    destruct (transient_resolves_twice Σ c s st r d cl fuel1 fuel2 v1 v2
                st1 st2 He Hd Hc Hcl H1 H2)
      as (kw1 & kw2 & a1 & a2 & log1 & log2 & T1 & P1 & C1 & T2 & P2 & C2 & Hlt).
    split.
    + exists kw1, kw2, a1, a2, log1, log2. auto 10.
    + intros Hnew. exists a1, a2.
      split; [exact (Hnew _ _ _ C1) |]. split; [exact (Hnew _ _ _ C2) | lia].
  - intros cls -> Hty Hdf fuel1 fuel2.
    pose proof (resolve_nullary_transient Σ c s fuel1 st r d cls
                  He Hd Hc Hty Hdf Hcl) as H1.
    eexists _, _, _, _. split; [exact H1 |]. split.
    + apply (resolve_nullary_transient Σ c s fuel2 _ r d cls);
        try assumption.
    + simpl. lia.
Qed.

(** C6, amended, at work: the class [B], registered without [cached]. *)
Lemma transient_resolves_distinct_witness :
  let st := (register demo demo_container "B" VNone false demo_state).2 in
  exists a1 a2 st1 st2,
    resolve demo 1 demo_container "B" st = (Ok (VInst a1 "B" []), st1) /\
    resolve demo 1 demo_container "B" st1 = (Ok (VInst a2 "B" []), st2) /\
    a1 <> a2.
Proof.
  intros st.
  destruct (transient_resolves_distinct demo demo_container "B" st 3
              (MkDependency "B" false VNone [] []) (plain_class "B" []))
    as [_ Htotal].
  - vm_compute. reflexivity.
  - vm_compute. reflexivity.
  - reflexivity.
  - vm_compute. reflexivity.
  - apply (Htotal "B" eq_refl eq_refl eq_refl 0 0).
Defined.

(** ** C7: registering a symbol again *)




(** ** C8: the registry before the literal default *)

(** C8 as stated fails: [Database] is registered, with a factory that
    returns [None]; the field [db] of [Report] is declared of type
    [Database] with the literal default ["dflt"].  The resolution of a
    registered type that gives [None] has not succeeded, so the fallback
    goes on to the default: [Report()] holds the default in [db], not an
    instance of the registered type. *)
Lemma registered_type_default_kept :
  let st := (register optional_database demo_container "Database"
               (VSym "no_database") false demo_state).2 in
  has demo_container "Database" st = (Ok true, st) /\
  (resolve optional_database 1 demo_container "Database" st).1 = Ok VNone /\
  (synthesized_init optional_database exact_type demo_container 1 "Report"
     report_fields [] [] st).1
  = Ok (VInst 4 "Report" [("db", VStr "dflt")]).
Proof.
  intros st. split; [reflexivity |]. split; vm_compute; reflexivity.
Qed.

(** C8, amended.  A declared field [f] has a literal default and is not
    supplied, neither by position nor by name.  The fallback takes the
    registry first: when the declared type is registered and resolves to
    a value, the fallback is that value, not the default.  So an object
    the constructor returns holds, in that field, the value [resolve]
    returned for the declared type (the default only if the registry
    answered [None]).  When the recipe registered for the declared type
    has a target whose calls return instances of that type, as it has
    when the type is registered as itself, the field holds an instance of
    the declared type, which [resolve] returned. *)
Theorem registry_before_default Σ (isinstance : value -> sym -> bool)
    (registry : Container) (fuel : nat) (cls : sym) (fields : list field)
    (args : list value) (named : list (string * value)) (f : field)
    (dv : value) :
  NoDup (map f_name fields) -> f ∈ fields -> f_default f = Some dv ->
  f_name f ∉ take (length args) (map f_name fields) ->
  f_name f ∉ named.*1 ->
  (forall st v st',
     is_Some (entries registry st !! f_type f) ->
     resolve Σ fuel registry (f_type f) st = (Ok v, st') ->
     is_none v = false ->
     fallback Σ registry fuel f st = (Ok (Some v), st')) /\
  (forall st obj st',
     is_Some (entries registry st !! f_type f) ->
     synthesized_init Σ isinstance registry fuel cls fields args named st
       = (Ok obj, st') ->
     exists sta stb v a attrs,
       later_store st sta /\
       resolve Σ fuel registry (f_type f) sta = (Ok v, stb) /\
       obj = VInst a cls attrs /\
       assoc (f_name f) attrs = Some (if is_none v then dv else v)) /\
  (forall st r g cl obj st',
     entries registry st !! f_type f = Some r ->
     Σ !! g = Some cl ->
     (forall kw a v, call cl kw a = Return v -> is_instance (f_type f) v) ->
     caches r g (is_instance (f_type f)) 0 st ->
     synthesized_init Σ isinstance registry fuel cls fields args named st
       = (Ok obj, st') ->
     exists sta stb v a attrs,
       later_store st sta /\
       resolve Σ fuel registry (f_type f) sta = (Ok v, stb) /\
       is_instance (f_type f) v /\
       obj = VInst a cls attrs /\ assoc (f_name f) attrs = Some v).
Proof.
  intros Hnd Hf Hdv Hpos Hnamed.
  assert (forall (P : State -> Prop) st obj st',
            (forall s st0, P st0 -> P (resolve Σ fuel registry s st0).2) ->
            P (MkState (dict_store st) (dep_store st) (S (next_addr st))
                       (trace st)) ->
            is_Some (entries registry st !! f_type f) ->
            synthesized_init Σ isinstance registry fuel cls fields args named
              st = (Ok obj, st') ->
            exists sta stb v a attrs,
              P sta /\ later_store st sta /\
              resolve Σ fuel registry (f_type f) sta = (Ok v, stb) /\
              obj = VInst a cls attrs /\
              assoc (f_name f) attrs = Some (if is_none v then dv else v))
    as Hobj.
  { intros P st obj st' HP Hst Hreg H. unfold synthesized_init in H.
    apply bind_Ok in H as (self & st1 & Halloc & H).
    injection Halloc as <- <-.
    destruct (bind_positional fields args) as [e | positional] eqn:Ep;
      [discriminate |].
    destruct (bind_named cls (map f_name fields) (list_to_map positional)
                named (list_to_map positional)) as [e | bound] eqn:En;
      [discriminate |].
    apply bind_Ok in H as (filled & st2 & Hfill & H).
    destruct (missing_arguments filled); [| discriminate].
    destruct (check_types isinstance fields bound); [discriminate |].
    injection H as <- <-.
    assert (bound !! f_name f = None) as Hb.
    { apply (bind_named_unbound _ _ _ _ _ _ _ En); [| exact Hnamed].
      apply not_elem_of_list_to_map.
      rewrite (bind_positional_names _ _ _ Ep). exact Hpos. }
    destruct (fill_fields_field_preserves Σ registry fuel P fields HP
                _ _ _ _ f Hst Hfill Hf) as (o & Hin & Ho).
    rewrite Hb in Ho. destruct Ho as (sta & stb & Pa & La & Hfb).
    assert (later_store st sta) as L.
    { etransitivity; [| exact La]. split; simpl; auto.
      intros r; reflexivity. }
    destruct (fallback_Ok Σ registry fuel f sta o stb Hfb)
      as [(Hunreg & _) | (_ & v & Hres & Ho)].
    { exfalso. unfold entries in *. rewrite (later_dicts _ _ L) in Hunreg.
      rewrite Hunreg in Hreg. destruct Hreg. discriminate. }
    exists sta, stb, v, (next_addr st), (resolved_values filled).
    split; [exact Pa |]. split; [exact L |]. split; [exact Hres |].
    split; [reflexivity |].
    apply assoc_Some.
    + apply (sublist_NoDup _ filled.*1); [| apply resolved_values_names].
      rewrite (fill_fields_names Σ registry fuel _ _ _ _ _ Hfill). exact Hnd.
    + apply resolved_values_elem. rewrite Hdv in Ho.
      destruct (is_none v); subst o; exact Hin. }
  split; [| split].
  - intros st v st'. apply fallback_registered.
  - intros st obj st' Hreg H.
    destruct (Hobj (fun _ => True) st obj st' (fun _ _ _ => I) I Hreg H)
      as (sta & stb & v & a & attrs & _ & L & Hres & Ho & Ha).
    exists sta, stb, v, a, attrs. auto.
  - intros st r g cl obj st' He Hg Hcl Hinv H.
    assert (forall kw a v, 0 <= a -> call cl kw a = Return v ->
              is_instance (f_type f) v) as HQ
      by (intros kw a v _; apply Hcl).
    destruct (Hobj (caches r g (is_instance (f_type f)) 0) st obj st')
      as (sta & stb & v & a & attrs & Pa & L & Hres & Ho & Ha).
    + intros s st0 H0.
      exact (proj1 (caches_resolve Σ registry r g cl _ 0 Hg HQ fuel s st0 H0)).
    + destruct Hinv as [_ Hd]. split; [simpl; lia | exact Hd].
    + eauto.
    + exact H.
    + assert (entries registry sta !! f_type f = Some r) as Hea
        by (unfold entries in *; rewrite (later_dicts _ _ L); exact He).
      destruct (caches_resolve Σ registry r g cl _ 0 Hg HQ fuel (f_type f)
                  sta Pa) as [_ Hv].
      rewrite Hres in Hv. specialize (Hv v eq_refl Hea).
      exists sta, stb, v, a, attrs. split; [exact L |].
      split; [exact Hres |]. split; [exact Hv |]. split; [exact Ho |].
      rewrite Ha. destruct Hv as (a' & attrs' & ->). reflexivity.
Qed.

(** C8, amended, at work: [Service("MyService")] with [Logger] and
    [Database] registered as themselves; [db] holds a [Database], not its
    default [None]. *)
Lemma registry_before_default_witness :
  let st := ((register demo demo_container "Logger" VNone false ;;
              register demo demo_container "Database" VNone false)%py
               demo_state).2 in
  exists obj st' a attrs,
    synthesized_init demo exact_type demo_container 1 "Service"
      service_fields [VStr "MyService"] [] st = (Ok obj, st') /\
    obj = VInst a "Service" attrs /\
    assoc "db" attrs = Some (VInst 7 "Database" []) /\
    is_instance "Database" (VInst 7 "Database" []).
Proof.
  intros st.
  destruct (synthesized_init demo exact_type demo_container 1 "Service"
              service_fields [VStr "MyService"] [] st) as [o st'] eqn:E.
  assert (o = Ok (VInst 5 "Service"
                    [("name", VStr "MyService");
                     ("logger", VInst 6 "Logger" []);
                     ("db", VInst 7 "Database" []); ("config", VNone)]))
    as -> by (vm_compute in E; congruence).
  destruct (registry_before_default demo exact_type demo_container 1
              "Service" service_fields [VStr "MyService"] []
              (Field "db" "Database" (Some VNone)) VNone) as (_ & _ & Hobj).
  - compute_done.
  - apply list_elem_of_lookup. exists 2. reflexivity.
  - reflexivity.
  - compute_done.
  - compute_done.
  - assert (forall kw a v,
              call (plain_class "Database" []) kw a = Return v ->
              is_instance "Database" v) as Hcl.
    { intros kw a v H. simpl in H.
      destruct (bind_args [] kw); [| discriminate].
      injection H as <-. eexists _, _. reflexivity. }
    assert (caches 4 "Database" (is_instance "Database") 0 st) as Hinv.
    { split; [lia |]. eexists. split; [reflexivity |].
      split; [reflexivity |]. left. reflexivity. }
    destruct (Hobj st 4 "Database" (plain_class "Database" []) _ st'
                eq_refl eq_refl Hcl Hinv E)
      as (sta & stb & v & a & attrs & _ & _ & Hv & Ho & Hdb).
    injection Ho as <- <-. simpl in Hdb. injection Hdb as <-.
    eexists _, st', _, _. split; [reflexivity |]. split; [reflexivity |].
    split; [reflexivity | exact Hv].
Defined.

(** ** C9: the missing arguments, all of them *)

(** C9.  When the explicit arguments bind without error and the fallback
    chain has run for every other field, and some field is left
    unresolved, the call raises one [TypeError] and returns no object.
    Its message is "Missing arguments: " followed by the unresolved field
    names, joined with ", ", in declaration order: every unresolved field
    is named, and no field that was resolved is; a field that is named was
    not supplied, has no default, and got nothing from the registry. *)
Theorem missing_arguments_aggregated Σ (isinstance : value -> sym -> bool)
    (registry : Container) (fuel : nat) (cls : sym) (fields : list field)
    (args : list value) (named : list (string * value)) (st : State)
    (positional : list (string * value)) (bound : gmap string value)
    (filled : list (string * option value)) (st2 : State) :
  NoDup (map f_name fields) ->
  bind_positional fields args = inr positional ->
  bind_named cls (map f_name fields) (list_to_map positional) named
             (list_to_map positional) = inr bound ->
  fill_fields Σ registry fuel fields bound
    (MkState (dict_store st) (dep_store st) (S (next_addr st)) (trace st))
    = (Ok filled, st2) ->
  missing_arguments filled <> [] ->
  synthesized_init Σ isinstance registry fuel cls fields args named st =
    (Raised (TypeError ("Missing arguments: " ++
                        String.concat ", " (missing_arguments filled))), st2) /\
  (forall n, n ∈ missing_arguments filled <-> (n, None) ∈ filled) /\
  (forall n v, (n, Some v) ∈ filled -> n ∉ missing_arguments filled) /\
  missing_arguments filled `sublist_of` map f_name fields /\
  (forall f, f ∈ fields -> f_name f ∈ missing_arguments filled ->
     bound !! f_name f = None /\ f_default f = None /\
     exists sta stb,
       fallback Σ registry fuel f sta = (Ok None, stb) /\
       (entries registry sta !! f_type f = None \/
        resolve Σ fuel registry (f_type f) sta = (Ok VNone, stb))).
Proof.
  intros Hnd Hpos Hnamed Hfill Hmiss.
  pose proof (fill_fields_names Σ registry fuel _ _ _ _ _ Hfill) as Hnames.
  assert (NoDup filled.*1) as Hnd' by (rewrite Hnames; exact Hnd).
  split; [| split; [apply missing_arguments_elem | split; [| split]]].
  - unfold synthesized_init, bind at 1. rewrite Hpos, Hnamed.
    unfold bind. rewrite Hfill.
    destruct (missing_arguments filled); [congruence | reflexivity].
  - intros n v Hin Hm. apply missing_arguments_elem in Hm.
    pose proof (pair_unique _ _ _ _ Hnd' Hin Hm). discriminate.
  - rewrite <- Hnames. clear. induction filled as [| [n [v |]] l IH]; simpl.
    + constructor.
    + unfold missing_arguments. simpl. apply sublist_cons. exact IH.
    + unfold missing_arguments. simpl. apply sublist_skip. exact IH.
  - intros f Hf Hm. apply missing_arguments_elem in Hm.
    destruct (fill_fields_field Σ registry fuel _ _ _ _ _ f Hfill Hf)
      as (o & Hin & Ho).
    pose proof (pair_unique _ _ _ _ Hnd' Hin Hm) as ->.
    destruct (bound !! f_name f) as [v |]; [discriminate |].
    split; [reflexivity |]. destruct Ho as (sta & stb & _ & Hfb).
    destruct (fallback_Ok Σ registry fuel f sta None stb Hfb)
      as [(Hunreg & Hdef & _) | (_ & v & Hres & Hv)].
    + split; [congruence |]. exists sta, stb. auto.
    + destruct (is_none v) eqn:Hnone; [| discriminate].
      destruct v; try discriminate.
      split; [congruence |]. exists sta, stb. auto.
Qed.

(** C9 at work: [MultiClass(a=1, c=True)] misses [b] and [d]. *)
Lemma missing_arguments_aggregated_witness :
  synthesized_init demo exact_type demo_container 1 "MultiClass"
    multi_fields [] [("a", VInt 1); ("c", VBool true)] demo_state =
  (Raised (TypeError "Missing arguments: b, d"),
   MkState (dict_store demo_state) (dep_store demo_state) 4 []).
Proof.
  apply (missing_arguments_aggregated demo exact_type demo_container 1
           "MultiClass" multi_fields [] [("a", VInt 1); ("c", VBool true)]
           demo_state [] {[ "a" := VInt 1; "c" := VBool true ]}
           [("a", Some (VInt 1)); ("b", None); ("c", Some (VBool true));
            ("d", None)]).
  - compute_done.
  - reflexivity.
  - vm_compute. reflexivity.
  - vm_compute. reflexivity.
  - discriminate.
Defined.

(** ** C10: a falsy replacement *)

(** C10. [register(s, r, cached)] with a falsy replacement [r] (None, but
    also [0], [False], the empty string, an empty list) is the same
    computation as [register(s, cached=cached)].  When the symbol is a
    class or function of the program, the registration succeeds and the
    recipe it stores has the symbol itself as target, read from the
    symbol's own signature, and nothing cached; when
    [inspect.signature] finds no signature of the symbol, both raise and
    store nothing.  A truthy replacement is the target that is stored. *)
Theorem register_falsy_replacement Σ (c : Container) (s : sym) (r : value)
    (cache : bool) (st : State) :
  truthy r = false ->
  register Σ c s r cache st = register Σ c s VNone cache st /\
  (forall cl, Σ !! s = Some cl ->
     exists st',
       register Σ c s r cache st = (Ok tt, st') /\
       has c s st' = (Ok true, st') /\
       recipe c s st' =
         Some (MkDependency s cache VNone (annotated (parameters cl))
                            (defaulted (parameters cl)))) /\
  (Σ !! s = None ->
   register Σ c s r cache st = (Raised (ValueError "no signature found"), st)) /\
  (forall st', register Σ c s r cache st = (Ok tt, st') ->
     exists d, recipe c s st' = Some d /\ target d = s /\ cached d = cache) /\
  (forall f cl, Σ !! f = Some cl ->
     exists st',
       register Σ c s (VSym f) cache st = (Ok tt, st') /\
       recipe c s st' =
         Some (MkDependency f cache VNone (annotated (parameters cl))
                            (defaulted (parameters cl)))) /\
  (forall r' st',
     truthy r' = true -> register Σ c s r' cache st = (Ok tt, st') ->
     exists d, recipe c s st' = Some d /\ r' = VSym (target d) /\
               cached d = cache).
Proof.
  intros Hr.
  assert (effective_target s r = VSym s) as Ht
    by (unfold effective_target; rewrite Hr; reflexivity).
  assert (forall r0 f cl, effective_target s r0 = VSym f -> Σ !! f = Some cl ->
            exists st',
              register Σ c s r0 cache st = (Ok tt, st') /\
              has c s st' = (Ok true, st') /\
              recipe c s st' =
                Some (MkDependency f cache VNone (annotated (parameters cl))
                                   (defaulted (parameters cl)))) as Hok.
  { intros r0 f cl Ht0 Hf.
    destruct (register_callable Σ c s r0 cache st f cl Ht0 Hf) as [st' H].
    exists st'. split; [exact H |]. split.
    - apply has_true. rewrite (register_entries _ _ _ _ _ _ _ H).
      rewrite lookup_insert_eq. eauto.
    - destruct (register_recipe _ _ _ _ _ _ _ H) as (f' & cl' & Ht' & Hf' & Hrec).
      rewrite Ht0 in Ht'. injection Ht' as <-. rewrite Hf in Hf'.
      injection Hf' as <-. exact Hrec. }
  split; [| split; [| split; [| split; [| split]]]].
  - unfold register. rewrite Hr. reflexivity.
  - intros cl Hs. exact (Hok r s cl Ht Hs).
  - intros Hs. unfold register. fold (effective_target s r). rewrite Ht.
    unfold bind, Dependency_init. rewrite Hs. reflexivity.
  - intros st' H. apply register_recipe in H as (f & cl & Ht' & _ & Hrec).
    rewrite Ht in Ht'. injection Ht' as <-.
    eexists. split; [exact Hrec |]. split; reflexivity.
  - intros f cl Hf. destruct (Hok (VSym f) f cl eq_refl Hf) as (st' & H & _ & Hrec).
    exists st'. auto.
  - intros r' st' Hr' H. apply register_recipe in H as (f & cl & Ht' & _ & Hrec).
    unfold effective_target in Ht'. rewrite Hr' in Ht'. simpl in Ht'.
    eexists. split; [exact Hrec |]. split; [exact Ht' | reflexivity].
Qed.

(** C10 at work: the replacement [0] is falsy, so [B] is registered as
    its own target; the replacement [make_queue] is truthy, and is the
    target. *)
Lemma register_falsy_replacement_witness :
  register demo demo_container "B" (VInt 0) true demo_state =
  register demo demo_container "B" VNone true demo_state /\
  (exists st',
     register demo demo_container "B" (VInt 0) true demo_state = (Ok tt, st') /\
     has demo_container "B" st' = (Ok true, st') /\
     recipe demo_container "B" st' = Some (MkDependency "B" true VNone [] [])) /\
  (exists st',
     register demo demo_container "B" (VSym "make_queue") true demo_state
     = (Ok tt, st') /\
     recipe demo_container "B" st'
     = Some (MkDependency "make_queue" true VNone [] [])).
Proof.
  destruct (register_falsy_replacement demo demo_container "B" (VInt 0) true
              demo_state eq_refl) as (Hsame & Hself & _ & _ & Hother & _).
  split; [exact Hsame |]. split.
  - exact (Hself (plain_class "B" []) eq_refl).
  - exact (Hother "make_queue" (Callable [] (fun _ a => Return (VList a [])))
             eq_refl).
Defined.

(** * Part IV: further properties of the registry *)

(** ** The depth of the recursion *)

Lemma resolve_types_agree (rec rec' : sym -> M value) :
  (forall s st, (rec s st).1 <> OutOfFuel -> rec' s st = rec s st) ->
  forall items kw st,
    (resolve_types rec items kw st).1 <> OutOfFuel ->
    resolve_types rec' items kw st = resolve_types rec items kw st.
Proof.
  intros Hrec. induction items as [| [name symbol] rest IH]; intros kw st H.
  - reflexivity.
  - simpl in *. unfold bind in *.
    destruct (rec symbol st) as [o st1] eqn:E.
    assert (o <> OutOfFuel) as Ho by (intros ->; apply H; reflexivity).
    rewrite (Hrec symbol st) by (rewrite E; exact Ho). rewrite E.
    destruct o as [v | e |]; [| reflexivity | congruence].
    apply IH. exact H.
Qed.

(** A recursion bound that suffices can be replaced by any larger one. *)
Lemma resolve_fuel_mono Σ (c : Container) (fuel : nat) :
  forall (s : sym) (st : State),
    (resolve Σ fuel c s st).1 <> OutOfFuel ->
    forall fuel', fuel <= fuel' ->
      resolve Σ fuel' c s st = resolve Σ fuel c s st.
Proof.
  induction fuel as [| fuel IH]; intros s st H fuel' Hle.
  - exfalso. apply H. reflexivity.
  - destruct fuel' as [| fuel']; [lia |].
    destruct (entries c st !! s) as [r |] eqn:He.
    2:{ rewrite !resolve_absent by exact He. reflexivity. }
    destruct (dep_store st !! r) as [d |] eqn:Hd.
    2:{ rewrite !(resolve_dangling _ _ _ _ _ r) by assumption. reflexivity. }
    rewrite (resolve_present Σ fuel c s st r d He Hd) in *.
    rewrite (resolve_present Σ fuel' c s st r d He Hd).
    unfold bind in *.
    rewrite (resolve_types_agree (resolve Σ fuel c) (resolve Σ fuel' c)).
    + reflexivity.
    + intros s' st' H'. apply IH; [exact H' | lia].
    + destruct (resolve_types (resolve Σ fuel c) (types d)
                  (kwargs_update ∅ (defaults d)) st) as [[kw | e |] st1];
        simpl in *; [discriminate | discriminate | congruence].
Qed.

Lemma ranked_later c st st' rk :
  later_store st st' -> ranked c st rk -> ranked c st' rk.
Proof.
  intros L H s r d' n t He Hd' Hin.
  pose proof (later_deps _ _ L r) as Hr. rewrite Hd' in Hr.
  inversion Hr as [d d0 (_ & _ & Hty & _) E E0 |]. subst d0.
  apply (H s r d n t).
  - unfold entries in *. rewrite <- (later_dicts _ _ L). exact He.
  - symmetry. assumption.
  - rewrite Hty. exact Hin.
Qed.

Lemma resolve_types_returns (rec : sym -> M value) items :
  (forall s, forward (rec s)) ->
  forall kw st,
    (forall n t sta, (n, t) ∈ items -> later_store st sta ->
                     (rec t sta).1 <> OutOfFuel) ->
    (resolve_types rec items kw st).1 <> OutOfFuel.
Proof.
  intros Hfw. induction items as [| [name symbol] rest IH]; intros kw st H.
  - discriminate.
  - simpl. unfold bind.
    pose proof (H name symbol st (list_elem_of_here _ _) (reflexivity _)) as H0.
    pose proof (Hfw symbol st) as L.
    destruct (rec symbol st) as [[v | e |] st1]; simpl in *;
      [| discriminate | congruence].
    apply IH. intros n t sta Hin La.
    apply (H n t sta); [right; exact Hin | etransitivity; eassumption].
Qed.

Lemma Dependency_resolve_returns Σ r kw st :
  (Dependency_resolve Σ r kw st).1 <> OutOfFuel.
Proof.
  assert (forall g, (invoke Σ g kw st).1 <> OutOfFuel) as Hinv.
  { intros g. unfold invoke. destruct (Σ !! g) as [cg |]; [| discriminate].
    destruct (call cg kw (next_addr st)); discriminate. }
  destruct (dep_store st !! r) as [d |] eqn:Hd.
  2:{ rewrite Dependency_resolve_dangling by exact Hd. discriminate. }
  destruct (cached d) eqn:Hc.
  2:{ rewrite (Dependency_resolve_transient Σ r kw st d Hd Hc). apply Hinv. }
  destruct (truthy (instance d)) eqn:Htr.
  - rewrite (Dependency_resolve_hit Σ r kw st d Hd Hc Htr). discriminate.
  - rewrite (Dependency_resolve_miss Σ r kw st d Hd Hc Htr).
    specialize (Hinv (target d)).
    destruct (invoke Σ (target d) kw st) as [[v | e |] st1];
      simpl in *; [discriminate | discriminate | congruence].
Qed.

Lemma ranked_resolve_returns Σ (c : Container) (rk : sym -> nat) (fuel : nat) :
  forall (s : sym) (st : State),
    ranked c st rk -> rk s < fuel -> (resolve Σ fuel c s st).1 <> OutOfFuel.
Proof.
  induction fuel as [| fuel IH]; intros s st Hrk Hlt; [lia |].
  destruct (entries c st !! s) as [r |] eqn:He.
  2:{ rewrite resolve_absent by exact He. discriminate. }
  destruct (dep_store st !! r) as [d |] eqn:Hd.
  2:{ rewrite (resolve_dangling _ _ _ _ _ r) by assumption. discriminate. }
  rewrite (resolve_present Σ fuel c s st r d He Hd). unfold bind.
  pose proof (resolve_types_returns (resolve Σ fuel c) (types d)
                (forward_resolve Σ fuel c) (kwargs_update ∅ (defaults d)) st)
    as Hloop.
  destruct (resolve_types (resolve Σ fuel c) (types d)
              (kwargs_update ∅ (defaults d)) st) as [[kw | e |] st1];
    simpl in *; [apply Dependency_resolve_returns | discriminate |].
  intros _. apply Hloop; [| reflexivity]. intros n t sta Hin La. apply IH.
  - exact (ranked_later _ _ _ _ La Hrk).
  - pose proof (Hrk s r d n t He Hd Hin). lia.
Qed.

(** X3. In a registry without circular dependencies (the symbols can be
    ranked so that every parameter type of a registered recipe ranks
    below the symbol it is registered for), [resolve] comes to an end: it
    returns or raises within a recursion depth of one more than the rank
    of the symbol, and a larger bound on the depth changes nothing, in
    the result or in the store. *)
Theorem acyclic_resolve_terminates Σ (c : Container) (rk : sym -> nat)
    (s : sym) (st : State) :
  ranked c st rk ->
  (resolve Σ (S (rk s)) c s st).1 <> OutOfFuel /\
  forall fuel, rk s < fuel ->
    resolve Σ fuel c s st = resolve Σ (S (rk s)) c s st.
Proof.
  intros Hrk.
  assert ((resolve Σ (S (rk s)) c s st).1 <> OutOfFuel) as H
    by (apply (ranked_resolve_returns Σ c rk); [exact Hrk | lia]).
  split; [exact H |]. intros fuel Hlt.
  apply resolve_fuel_mono; [exact H | lia].
Qed.

(** X3 at work: [A] needs a [B] and [B] needs nothing; [resolve(A)]
    returns at depth two, and the same at depth fifty. *)
Lemma acyclic_resolve_terminates_witness :
  let st := ((register demo demo_container "A" VNone false ;;
              register demo demo_container "B" VNone false)%py
               demo_state).2 in
  (resolve demo 2 demo_container "A" st).1
  = Ok (VInst 6 "A" [("b", VInst 5 "B" [])]) /\
  resolve demo 50 demo_container "A" st = resolve demo 2 demo_container "A" st.
Proof.
  intros st.
  destruct (acyclic_resolve_terminates demo demo_container
              (fun s => if String.eqb s "A" then 1 else 0) "A" st)
    as [_ Hsame].
  - intros s r d n t He Hd Hin.
    assert (entries demo_container st = <["B" := 4]> (<["A" := 3]> ∅)) as E
      by (vm_compute; reflexivity).
    assert (dep_store st
            = <[4 := MkDependency "B" false VNone [] []]>
                (<[3 := MkDependency "A" false VNone [("b", "B")] []]> ∅))
      as E' by (vm_compute; reflexivity).
    rewrite E in He. rewrite E' in Hd.
    apply lookup_insert_Some in He as [[<- <-] | [_ He]].
    + rewrite lookup_insert_eq in Hd. injection Hd as <-. inversion Hin.
    + apply lookup_insert_Some in He as [[<- <-] | [_ He]].
      * rewrite lookup_insert_ne in Hd by discriminate.
        rewrite lookup_insert_eq in Hd. injection Hd as <-.
        apply list_elem_of_singleton in Hin. injection Hin as -> ->.
        simpl. lia.
      * rewrite lookup_empty in He. discriminate.
  - split; [vm_compute; reflexivity |]. apply Hsame. simpl. lia.
Defined.

(** ** What [resolve] leaves alone *)

(** X4. Whatever its outcome, a resolution registers and unregisters
    nothing, in any container; it creates and deletes no [Dependency]
    object and changes none but in the cache slot; it does not write at
    all a recipe that is not cached or that holds a truthy instance; and
    it only adds to the trace of calls. *)
Theorem resolve_frame Σ (fuel : nat) (c : Container) (s : sym) (st : State) :
  let st' := (resolve Σ fuel c s st).2 in
  (forall c' s', (has c' s' st').1 = (has c' s' st).1) /\
  (forall c', entries c' st' = entries c' st) /\
  (forall r, dep_store st !! r = None -> dep_store st' !! r = None) /\
  (forall r d, dep_store st !! r = Some d ->
     exists d', dep_store st' !! r = Some d' /\ same_recipe d d' /\
                (cached d = false \/ truthy (instance d) = true -> d' = d)) /\
  trace st `prefix_of` trace st'.
Proof.
  intros st'. pose proof (forward_resolve Σ fuel c s st) as L.
  fold st' in L. destruct L as [Hdict Hdeps Hset _ Htrace].
  assert (forall c', entries c' st' = entries c' st) as He
    by (intros c'; unfold entries; rewrite Hdict; reflexivity).
  split; [| split; [exact He | split; [| split; [| exact Htrace]]]].
  - intros c' s'. rewrite !has_spec, He. reflexivity.
  - intros r Hr. specialize (Hdeps r). rewrite Hr in Hdeps.
    inversion Hdeps. reflexivity.
  - intros r d Hr. specialize (Hdeps r). rewrite Hr in Hdeps.
    inversion Hdeps as [? d' Hs |]; subst. exists d'.
    split; [reflexivity |]. split; [exact Hs |]. intros Hsettled.
    pose proof (Hset r d Hr Hsettled) as E. congruence.
Qed.

(** ** Registering *)

(** X5. After a registration that succeeds the registry has the symbol,
    and [dependencies()] maps it to the [Dependency] object just created;
    every other symbol of that registry is found, or not, as before; a
    container that holds another dict is not affected; and the
    registration calls no target. *)
Theorem register_has Σ (c : Container) (s : sym) (r : value) (cache : bool)
    (st st' : State) :
  register Σ c s r cache st = (Ok tt, st') ->
  has c s st' = (Ok true, st') /\
  dependencies c st' = (Ok (<[s := next_addr st]> (entries c st)), st') /\
  (forall s', s' <> s -> (has c s' st').1 = (has c s' st).1) /\
  (forall c' s', dependencies_ref c' <> dependencies_ref c ->
     (has c' s' st').1 = (has c' s' st).1) /\
  trace st' = trace st.
Proof.
  intros H. pose proof (register_entries _ _ _ _ _ _ _ H) as He.
  split; [| split; [| split; [| split]]].
  - apply has_true. rewrite He, lookup_insert_eq. eauto.
  - unfold dependencies, read_dict. fold (entries c st'). rewrite He.
    reflexivity.
  - intros s' Hne. rewrite !has_spec, He. simpl.
    rewrite lookup_insert_ne by congruence. reflexivity.
  - intros c' s' Hne. rewrite !has_spec. simpl.
    rewrite (register_other_dict Σ c c' s r cache st st'); auto.
  - apply register_Ok in H as (f & cl & _ & _ & ->). reflexivity.
Qed.

(** X5 at work: [register(B)], then [has(B)]. *)
Lemma register_has_witness :
  let st' := (register demo demo_container "B" VNone false demo_state).2 in
  has demo_container "B" st' = (Ok true, st') /\
  (has demo_container "A" st').1 = Ok false.
Proof.
  intros st'.
  destruct (register_has demo demo_container "B" VNone false demo_state st'
              eq_refl) as (Hyes & _ & Hother & _).
  split; [exact Hyes |]. rewrite (Hother "A") by discriminate. reflexivity.
Defined.

(** X6. A registration does not succeed when the target it ends up with
    is not a class or function of which [inspect.signature] finds a
    signature.  The [Dependency] constructor then raises, before anything
    is stored: [TypeError] when the target is not callable, [ValueError]
    when it is a callable without a signature, such as the builtin type
    [int].  The store is as it was, and a recipe registered earlier for
    the symbol stays. *)
Theorem register_failure Σ (c : Container) (s : sym) (r : value)
    (cache : bool) (st : State) :
  (forall f cl, effective_target s r = VSym f -> Σ !! f = Some cl -> False) ->
  register Σ c s r cache st =
    (Raised (match effective_target s r with
             | VSym _ => ValueError "no signature found"
             | _ => TypeError "object is not callable"
             end), st) /\
  recipe c s (register Σ c s r cache st).2 = recipe c s st.
Proof.
  intros Hbad.
  assert (register Σ c s r cache st =
            (Raised (match effective_target s r with
                     | VSym _ => ValueError "no signature found"
                     | _ => TypeError "object is not callable"
                     end), st)) as H.
  { unfold register. fold (effective_target s r).
    unfold bind, Dependency_init.
    destruct (effective_target s r) as [| | | | | | f] eqn:E; try reflexivity.
    destruct (Σ !! f) as [cl |] eqn:Hf; [| reflexivity].
    exfalso. exact (Hbad f cl eq_refl Hf). }
  split; [exact H |]. rewrite H. reflexivity.
Qed.

(** X6 at work: the replacement [5] is truthy and not callable; [int] is
    a builtin type without a signature. *)
Lemma register_failure_witness :
  register demo demo_container "B" (VInt 5) false demo_state
  = (Raised (TypeError "object is not callable"), demo_state) /\
  register demo demo_container "int" VNone false demo_state
  = (Raised (ValueError "no signature found"), demo_state).
Proof.
  split.
  - apply (register_failure demo demo_container "B" (VInt 5) false demo_state).
    intros f cl E Hf. discriminate.
  - apply (register_failure demo demo_container "int" VNone false demo_state).
    intros f cl E Hf. injection E as <-. vm_compute in Hf. discriminate.
Defined.

(** X7. The first resolution of a symbol registered with a target that
    takes no parameters is one call of the target without arguments: it
    returns what the call returns and raises what the call raises, and
    the call is the one entry added to the trace. *)
Theorem register_resolve_nullary Σ (c : Container) (s : sym) (r : value)
    (cache : bool) (st st1 : State) (f : sym) (cl : callable) (fuel : nat) :
  register Σ c s r cache st = (Ok tt, st1) ->
  effective_target s r = VSym f -> Σ !! f = Some cl ->
  parameters cl = [] ->
  (resolve Σ (S fuel) c s st1).1 =
    match call cl ∅ (next_addr st1) with
    | Return v => Ok v
    | Raise e => Raised e
    end /\
  trace (resolve Σ (S fuel) c s st1).2 = (trace st ++ [(f, ∅)])%list.
Proof.
  intros Hreg Ht Hf Hps.
  pose proof (register_entries _ _ _ _ _ _ _ Hreg) as He.
  assert (dep_store st1 !! next_addr st
          = Some (MkDependency f cache VNone [] []) /\
          next_addr st1 = S (next_addr st) /\ trace st1 = trace st)
    as (Hd & Hn & Htr).
  { apply register_Ok in Hreg as (f' & cl' & Ht' & Hf' & ->).
    rewrite Ht in Ht'. injection Ht' as <-. rewrite Hf in Hf'.
    injection Hf' as <-. rewrite Hps. simpl.
    split; [apply lookup_insert_eq | split; reflexivity]. }
  assert (entries c st1 !! s = Some (next_addr st)) as He1
    by (rewrite He; apply lookup_insert_eq).
  assert (resolve Σ (S fuel) c s st1
          = Dependency_resolve Σ (next_addr st) ∅ st1) as ->
    by (rewrite (resolve_present Σ fuel c s st1 _ _ He1 Hd); reflexivity).
  rewrite <- Htr. destruct cache.
  - rewrite (Dependency_resolve_miss Σ _ ∅ st1 _ Hd eq_refl eq_refl).
    unfold invoke. simpl. rewrite Hf.
    destruct (call cl ∅ (next_addr st1)); split; reflexivity.
  - rewrite (Dependency_resolve_transient Σ _ ∅ st1 _ Hd eq_refl).
    unfold invoke. simpl. rewrite Hf.
    destruct (call cl ∅ (next_addr st1)); split; reflexivity.
Qed.

(** X7 at work: [register(Queue, make_queue)], then [resolve(Queue)]. *)
Lemma register_resolve_nullary_witness :
  let st1 := (register demo demo_container "Queue" (VSym "make_queue") false
                demo_state).2 in
  (resolve demo 1 demo_container "Queue" st1).1 = Ok (VList 4 []) /\
  trace (resolve demo 1 demo_container "Queue" st1).2 = [("make_queue", ∅)].
Proof.
  intros st1.
  exact (register_resolve_nullary demo demo_container "Queue"
           (VSym "make_queue") false demo_state st1 "make_queue"
           (Callable [] (fun _ a => Return (VList a []))) 0
           eq_refl eq_refl eq_refl eq_refl).
Defined.

(** X8. Registering a symbol again discards what was cached for it: for
    a class [A] without parameters that is registered, resolved,
    registered again and resolved again, the second resolution returns a
    new instance, whatever the two cached flags are. *)
Theorem reregister_discards_cache Σ (c : Container) (A : sym)
    (cache1 cache2 : bool) (fuel1 fuel2 : nat) (st st1 st2 st3 : State)
    (v1 : value) :
  Σ !! A = Some (plain_class A []) ->
  register Σ c A VNone cache1 st = (Ok tt, st1) ->
  resolve Σ (S fuel1) c A st1 = (Ok v1, st2) ->
  register Σ c A VNone cache2 st2 = (Ok tt, st3) ->
  exists a1 a2 st4,
    v1 = VInst a1 A [] /\
    resolve Σ (S fuel2) c A st3 = (Ok (VInst a2 A []), st4) /\
    a1 < a2.
Proof.
  intros HA H1 Hres H2.
  assert (forall cache sta stb,
            register Σ c A VNone cache sta = (Ok tt, stb) ->
            entries c stb !! A = Some (next_addr sta) /\
            dep_store stb !! next_addr sta
            = Some (MkDependency A cache VNone [] []) /\
            next_addr stb = S (next_addr sta)) as Hfresh.
  { intros cache sta stb H.
    pose proof (register_entries _ _ _ _ _ _ _ H) as He.
    apply register_Ok in H as (f & cl & Ht & Hf & ->).
    injection Ht as <-. rewrite HA in Hf. injection Hf as <-.
    split; [rewrite He; apply lookup_insert_eq |].
    split; [apply lookup_insert_eq | reflexivity]. }
  destruct (Hfresh _ _ _ H1) as (E1 & D1 & N1).
  destruct (Hfresh _ _ _ H2) as (E3 & D3 & N3).
  destruct (resolve_nullary_fresh Σ c A fuel1 st1 _ A cache1 E1 D1 HA)
    as (st2' & R1 & _ & N2 & _).
  rewrite Hres in R1. injection R1 as -> <-.
  destruct (resolve_nullary_fresh Σ c A fuel2 st3 _ A cache2 E3 D3 HA)
    as (st4 & R3 & _).
  exists (next_addr st1), (next_addr st3), st4.
  split; [reflexivity |]. split; [exact R3 | lia].
Qed.

(** X8 at work: the class [B], cached both times. *)
Lemma reregister_discards_cache_witness :
  let st1 := (register demo demo_container "B" VNone true demo_state).2 in
  let st2 := (resolve demo 1 demo_container "B" st1).2 in
  let st3 := (register demo demo_container "B" VNone true st2).2 in
  exists a1 a2 st4,
    VInst 4 "B" [] = VInst a1 "B" [] /\
    resolve demo 1 demo_container "B" st3 = (Ok (VInst a2 "B" []), st4) /\
    a1 < a2.
Proof.
  intros st1 st2 st3.
  exact (reregister_discards_cache demo demo_container "B" true true 0 0
           demo_state st1 st2 st3 (VInst 4 "B" [])
           eq_refl eq_refl eq_refl eq_refl).
Defined.

(** ** [Dependency] objects used directly *)

(** X9. A cached [Dependency] object registered with
    [register_dependency] under two symbols, of one container or of two,
    has one cache: once a resolution through the first symbol has
    returned a truthy value, every resolution through the second that
    returns, returns that identical value. *)
Theorem shared_dependency_one_cache Σ (c1 c2 : Container) (s1 s2 : sym)
    (r : addr) (d : Dependency) (st0 st0' st : State) (fuel : nat)
    (v : value) (st1 : State) :
  register_dependency c1 s1 r st0 = (Ok tt, st0') ->
  register_dependency c2 s2 r st0' = (Ok tt, st) ->
  dep_store st0 !! r = Some d -> cached d = true ->
  resolve Σ fuel c1 s1 st = (Ok v, st1) -> truthy v = true ->
  forall fuel' v' st2,
    resolve Σ fuel' c2 s2 st1 = (Ok v', st2) -> v' = v.
Proof.
  unfold register_dependency. intros [= <-] [= <-] Hd Hc Hres Hv.
  simpl in *.
  set (st := MkState _ _ _ _) in *.
  assert (entries c2 st !! s2 = Some r) as E2.
  { unfold entries, st. simpl. rewrite lookup_insert_eq. simpl.
    apply lookup_insert_eq. }
  assert (entries c1 st !! s1 = Some r) as E1.
  { unfold entries, st. simpl.
    destruct (decide (dependencies_ref c2 = dependencies_ref c1)) as [E |].
    - rewrite E, !lookup_insert_eq. simpl.
      destruct (decide (s2 = s1)) as [-> |].
      + apply lookup_insert_eq.
      + rewrite lookup_insert_ne by exact n. apply lookup_insert_eq.
    - rewrite lookup_insert_ne by exact n. rewrite lookup_insert_eq.
      simpl. apply lookup_insert_eq. }
  assert (dep_store st !! r = Some d) as Hd' by exact Hd.
  destruct (cached_instance_stored Σ c1 s1 fuel st r d v st1 E1 Hd' Hc Hres)
    as (d' & Hd1 & (_ & Hc' & _) & Hi).
  pose proof (forward_resolve Σ fuel c1 s1 st) as L. rewrite Hres in L.
  simpl in L.
  assert (entries c2 st1 !! s2 = Some r) as E2'
    by (unfold entries in *; rewrite (later_dicts _ _ L); exact E2).
  intros fuel' v' st2 H2.
  destruct (cached_instance_stable Σ c2 s2 fuel' st1 r d' v' st2 E2' Hd1)
    as [-> _]; [congruence | rewrite Hi; exact Hv | exact H2 | exact Hi].
Qed.

(** X9 at work: one cached [Dependency] for the class [B], registered as
    [B] and as [Alias]. *)
Lemma shared_dependency_one_cache_witness :
  let st1 := (resolve demo 1 demo_container "B" alias_registered).2 in
  resolve demo 1 demo_container "B" alias_registered
  = (Ok (VInst 4 "B" []), st1) /\
  (resolve demo 1 demo_container "Alias" st1).1 = Ok (VInst 4 "B" []).
Proof.
  intros st1. split; [reflexivity |].
  destruct (resolve demo 1 demo_container "Alias" st1) as [o st2] eqn:E.
  assert (exists v', o = Ok v') as [v' ->]
    by (vm_compute in E; injection E as <- _; eauto).
  simpl. f_equal.
  exact (shared_dependency_one_cache demo demo_container demo_container
           "B" "Alias" 3 (MkDependency "B" true VNone [] [])
           (Dependency_init demo (VSym "B") true demo_state).2
           (register_dependency demo_container "B" 3
              (Dependency_init demo (VSym "B") true demo_state).2).2
           alias_registered 1 (VInst 4 "B" []) st1
           eq_refl eq_refl eq_refl eq_refl eq_refl eq_refl 1 v' st2 E).
Defined.

(** X10. [Dependency.resolve] on a cached object that holds a truthy
    instance ignores its arguments: after a call that returned a truthy
    value, a call with any other arguments returns that value, calls no
    target and leaves the store as it is. *)
Theorem Dependency_resolve_ignores_arguments Σ (self : addr) (d : Dependency)
    (kw1 : kwargs) (st : State) (v : value) (st1 : State) :
  dep_store st !! self = Some d -> cached d = true ->
  Dependency_resolve Σ self kw1 st = (Ok v, st1) -> truthy v = true ->
  forall kw2, Dependency_resolve Σ self kw2 st1 = (Ok v, st1).
Proof.
  intros Hd Hc H Hv kw2. destruct (truthy (instance d)) eqn:Hi.
  - rewrite (Dependency_resolve_hit Σ self kw1 st d Hd Hc Hi) in H.
    injection H as <- <-. apply Dependency_resolve_hit; assumption.
  - rewrite (Dependency_resolve_miss Σ self kw1 st d Hd Hc Hi) in H.
    destruct (invoke Σ (target d) kw1 st) as [[w | e |] sti]; try discriminate.
    injection H as <- <-.
    apply (Dependency_resolve_hit Σ self kw2 _ (set_instance d w));
      [apply lookup_insert_eq | exact Hc | exact Hv].
Qed.

(** X10 at work: a cached [Dependency] for [Service], asked for the name
    "a" and then for the name "b". *)
Lemma Dependency_resolve_ignores_arguments_witness :
  let st := (Dependency_init demo (VSym "Service") true demo_state).2 in
  let st1 := (Dependency_resolve demo 3 {[ "name" := VStr "a" ]} st).2 in
  Dependency_resolve demo 3 {[ "name" := VStr "b" ]} st1
  = (Ok (VInst 4 "Service"
           [("logger", VStr "stdout"); ("level", VInt 3);
            ("name", VStr "a")]), st1).
Proof.
  intros st st1.
  apply (Dependency_resolve_ignores_arguments demo 3
           (MkDependency "Service" true VNone
              [("logger", "Logger"); ("level", "Level")]
              [("logger", VStr "stdout"); ("level", VInt 3);
               ("name", VStr "svc")])
           {[ "name" := VStr "a" ]} st).
  - reflexivity.
  - reflexivity.
  - vm_compute. reflexivity.
  - reflexivity.
Defined.

(** X11. When [Dependency.resolve] raises, nothing was cached: no dict
    and no [Dependency] object has changed.  For a cached object this
    means that its slot held no truthy instance and still holds none, so
    that the next call tries the target again. *)
Theorem Dependency_resolve_raise_caches_nothing Σ (self : addr) (kw : kwargs)
    (st : State) (e : exn) (st' : State) :
  Dependency_resolve Σ self kw st = (Raised e, st') ->
  dep_store st' = dep_store st /\ dict_store st' = dict_store st /\
  (forall d, dep_store st !! self = Some d -> cached d = true ->
     truthy (instance d) = false /\
     forall kw', Dependency_resolve Σ self kw' st' =
       match invoke Σ (target d) kw' st' with
       | (Ok v, st1) => (Ok v, store_instance self d v st1)
       | (Raised e', st1) => (Raised e', st1)
       | (OutOfFuel, st1) => (OutOfFuel, st1)
       end).
Proof.
  intros H.
  assert (dep_store st' = dep_store st /\ dict_store st' = dict_store st)
    as [Hdep Hdict].
  { destruct (dep_store st !! self) as [d |] eqn:Hd.
    2:{ rewrite (Dependency_resolve_dangling Σ self kw st Hd) in H.
        injection H as _ <-. auto. }
    assert (forall o sti, invoke Σ (target d) kw st = (o, sti) ->
              dep_store sti = dep_store st /\ dict_store sti = dict_store st)
      as Hinv.
    { unfold invoke. intros o sti. destruct (Σ !! target d) as [cl |].
      - destruct (call cl kw (next_addr st)); intros [= <- <-]; auto.
      - intros [= <- <-]. auto. }
    destruct (cached d) eqn:Hc.
    - destruct (truthy (instance d)) eqn:Hi.
      + rewrite (Dependency_resolve_hit Σ self kw st d Hd Hc Hi) in H.
        discriminate.
      + rewrite (Dependency_resolve_miss Σ self kw st d Hd Hc Hi) in H.
        destruct (invoke Σ (target d) kw st) as [[w | e' |] sti] eqn:E;
          try discriminate.
        injection H as _ <-. exact (Hinv _ _ eq_refl).
    - rewrite (Dependency_resolve_transient Σ self kw st d Hd Hc) in H.
      exact (Hinv _ _ H). }
  split; [exact Hdep |]. split; [exact Hdict |]. intros d Hd Hc.
  assert (truthy (instance d) = false) as Hi.
  { destruct (truthy (instance d)) eqn:Hi; [| reflexivity].
    rewrite (Dependency_resolve_hit Σ self kw st d Hd Hc Hi) in H.
    discriminate. }
  split; [exact Hi |]. intros kw'.
  apply Dependency_resolve_miss; [congruence | exact Hc | exact Hi].
Qed.

(** X11 at work: a cached [Dependency] for [Needy], called without the
    argument [n] and then with it. *)
Lemma Dependency_resolve_raise_caches_nothing_witness :
  let st := (Dependency_init demo (VSym "Needy") true demo_state).2 in
  let st' := (Dependency_resolve demo 3 ∅ st).2 in
  dep_store st' = dep_store st /\
  (Dependency_resolve demo 3 {[ "n" := VInt 1 ]} st').1
  = Ok (VInst 5 "Needy" [("n", VInt 1)]).
Proof.
  intros st st'.
  assert (Dependency_resolve demo 3 ∅ st
          = (Raised (TypeError "arguments do not match the signature"), st'))
    as H by (vm_compute; reflexivity).
  destruct (Dependency_resolve_raise_caches_nothing demo 3 ∅ st _ st' H)
    as (Hdep & _ & Hretry).
  split; [exact Hdep |].
  destruct (Hretry (MkDependency "Needy" true VNone [] []) eq_refl eq_refl)
    as [_ Hnext].
  rewrite Hnext. reflexivity.
Defined.

(** ** The arguments a resolution passes *)

Lemma kwargs_update_keys (l : list (string * value)) (kw : kwargs) n :
  is_Some (kwargs_update kw l !! n) -> is_Some (kw !! n) \/ n ∈ l.*1.
Proof.
  revert kw. induction l as [| [k v] l IH]; intros kw H; [left; exact H |].
  unfold kwargs_update in H. simpl in H. apply IH in H as [H | H].
  - destruct (decide (k = n)) as [-> | Hne].
    + right. left.
    + rewrite lookup_insert_ne in H by exact Hne. left. exact H.
  - right. right. exact H.
Qed.







(** X13. A class or function is registered under a symbol with a recipe
    that is not cached, and its signature has a parameter that stands for
    one argument (not [*args], not [**kwargs]), without a default, whose
    annotation is absent or is a type that is not registered.  Then no
    resolution of the symbol returns; a resolution whose parameter loop
    completes raises the [TypeError] of the call, after that one call. *)
Theorem resolve_required_unsupplied Σ (c : Container) (s cls : sym)
    (cl : callable) (sig : Signature) (k : kind) (p : param) (st : State)
    (r : addr) (d : Dependency) :
  entries c st !! s = Some r -> dep_store st !! r = Some d ->
  cached d = false -> target d = cls ->
  Σ !! cls = Some cl -> has_signature sig cl ->
  types d = annotated (parameters cl) ->
  defaults d = defaulted (parameters cl) ->
  NoDup (map p_name (parameters cl)) ->
  (k, p) ∈ sig -> single k = true -> p_default p = None ->
  (forall T, p_annotation p = Some T -> entries c st !! T = None) ->
  (forall fuel v st', resolve Σ fuel c s st <> (Ok v, st')) /\
  (forall fuel kw st1,
     resolve_types (resolve Σ fuel c) (types d)
                   (kwargs_update ∅ (defaults d)) st = (Ok kw, st1) ->
     exists msg,
       resolve Σ (S fuel) c s st =
         (Raised (TypeError msg),
          MkState (dict_store st1) (dep_store st1) (S (next_addr st1))
                  (trace st1 ++ [(cls, kw)]))).
Proof.
  intros He Hd Hc Ht Hcls [Hps Hcall] Hty Hdf Hnd Hin Hk Hpd Hann.
  set (ps := parameters cl) in *.
  assert (p ∈ ps) as Hp.
  { rewrite Hps. apply list_elem_of_fmap. exists (k, p). auto. }
  assert (forall fuel kw st1,
            resolve_types (resolve Σ fuel c) (types d)
              (kwargs_update ∅ (defaults d)) st = (Ok kw, st1) ->
            binds sig kw = false /\ dep_store st1 !! r = Some d) as Hloop.
  { intros fuel kw st1 Hl.
    pose proof (forward_resolve_types (resolve Σ fuel c) (types d)
                  (forward_resolve Σ fuel c)
                  (kwargs_update ∅ (defaults d)) st) as L.
    rewrite Hl in L. simpl in L.
    split; [| apply (later_settled _ _ L r d Hd); left; exact Hc].
    assert (NoDup (types d).*1) as Hnd'
      by (rewrite Hty; apply annotated_NoDup; exact Hnd).
    destruct (resolve_types_args (fun _ => True) (resolve Σ fuel c)
                (forward_resolve Σ fuel c) (fun _ _ _ => I)
                _ _ _ _ _ I Hnd' Hl) as (_ & Hout & Hin').
    assert (kwargs_update ∅ (defaults d) !! p_name p = None) as Hbase.
    { destruct (kwargs_update ∅ (defaults d) !! p_name p) eqn:E;
        [| reflexivity].
      exfalso. assert (is_Some (kwargs_update ∅ (defaults d) !! p_name p))
        as Hs by eauto.
      apply kwargs_update_keys in Hs as [Hs | Hs].
      - rewrite lookup_empty in Hs. destruct Hs. discriminate.
      - rewrite Hdf in Hs. apply list_elem_of_fmap in Hs as ([n v'] & En & Hs).
        simpl in En. subst n. unfold defaulted in Hs.
        apply list_elem_of_omap in Hs as (q & Hq & Eq).
        destruct (p_default q) eqn:Dq; [| discriminate]. injection Eq as Eq _.
        rewrite (map_unique p_name ps q p Hnd Hq Hp Eq) in Dq. congruence. }
    assert (kw !! p_name p = None) as Hkw.
    { destruct (decide (p_name p ∈ (types d).*1)) as [Hin'' | Hnotin].
      - apply list_elem_of_fmap in Hin'' as ([n T] & En & HnT).
        simpl in En. subst n.
        destruct (Hin' _ _ HnT) as (sta & stb & v & _ & La & _ & Hr & Hv).
        rewrite Hty in HnT. unfold annotated in HnT.
        apply list_elem_of_omap in HnT as (q & Hq & Eq).
        destruct (p_annotation q) eqn:Aq; [| discriminate].
        injection Eq as Eq ->.
        rewrite (map_unique p_name ps q p Hnd Hq Hp Eq) in Aq.
        destruct fuel as [| fuel]; [discriminate |].
        rewrite resolve_absent in Hr.
        + injection Hr as <- <-. simpl in Hv. rewrite Hv. exact Hbase.
        + unfold entries in *. rewrite (later_dicts _ _ La).
          apply Hann. exact Aq.
      - rewrite (Hout _ Hnotin). exact Hbase. }
    exact (binds_missing sig kw k p Hin Hk Hkw Hpd). }
  assert (forall fuel kw st1,
            resolve_types (resolve Σ fuel c) (types d)
              (kwargs_update ∅ (defaults d)) st = (Ok kw, st1) ->
            exists msg,
              resolve Σ (S fuel) c s st =
                (Raised (TypeError msg),
                 MkState (dict_store st1) (dep_store st1) (S (next_addr st1))
                         (trace st1 ++ [(cls, kw)]))) as Hraise.
  { intros fuel kw st1 Hl. destruct (Hloop fuel kw st1 Hl) as [Hb Hd1].
    destruct (Hcall kw (next_addr st1) Hb) as [msg Hmsg]. exists msg.
    rewrite (resolve_present Σ fuel c s st r d He Hd).
    rewrite (bind_run _ _ _ _ _ Hl).
    rewrite (Dependency_resolve_transient Σ r kw st1 d Hd1 Hc).
    unfold invoke. rewrite Ht, Hcls, Hmsg. reflexivity. }
  split; [| exact Hraise].
  intros fuel v st' H. destruct fuel as [| fuel]; [discriminate |].
  pose proof H as H'.
  rewrite (resolve_present Σ fuel c s st r d He Hd) in H'.
  apply bind_Ok in H' as (kw & st1 & Hl & _).
  destruct (Hraise fuel kw st1 Hl) as [msg Hmsg].
  rewrite Hmsg in H. discriminate.
Qed.

(** X13 at work: [Needy], registered, has the required parameter [n]. *)
Lemma resolve_required_unsupplied_witness :
  ~ (exists fuel v st',
       resolve demo fuel demo_container "Needy" client_registered
       = (Ok v, st')).
Proof.
  intros (fuel & v & st' & H).
  destruct (resolve_required_unsupplied demo demo_container "Needy" "Needy"
              (plain_class "Needy" [Param "n" None None])
              (ordinary [Param "n" None None])
              POSITIONAL_OR_KEYWORD (Param "n" None None)
              client_registered 4
              (MkDependency "Needy" false VNone [] [])) as [Hnever _].
  - reflexivity.
  - reflexivity.
  - reflexivity.
  - reflexivity.
  - reflexivity.
  - apply plain_class_has_signature.
  - reflexivity.
  - reflexivity.
  - compute_done.
  - left.
  - reflexivity.
  - reflexivity.
  - discriminate.
  - exact (Hnever fuel v st' H).
Defined.

(** ** Recursion through the parameter types *)

Lemma resolve_types_calls (rec : sym -> M value) items :
  (forall s, forward (rec s)) ->
  forall kw0 st kw st' n T,
    resolve_types rec items kw0 st = (Ok kw, st') -> (n, T) ∈ items ->
    exists sta stb v,
      later_store st sta /\ later_store stb st' /\ rec T sta = (Ok v, stb).
Proof.
  intros Hrec.
  induction items as [| [name symbol] rest IH]; intros kw0 st kw st' n T H Hin;
    [inversion Hin |].
  simpl in H. apply bind_Ok in H as (v & st1 & Hv & H).
  pose proof (Hrec symbol st) as L1. rewrite Hv in L1. simpl in L1.
  apply elem_of_cons in Hin as [E | Hin].
  - injection E as -> ->. exists st, st1, v. split; [reflexivity |].
    split; [| exact Hv].
    pose proof (forward_resolve_types rec rest Hrec
                  (if is_none v then kw0 else <[name := v]> kw0) st1) as L.
    rewrite H in L. exact L.
  - destruct (IH _ _ _ _ _ _ H Hin) as (sta & stb & v' & La & Lb & Hr).
    exists sta, stb, v'. split; [etransitivity; eassumption |]. auto.
Qed.

Lemma dependency_cycle_later c st st' C :
  later_store st st' -> dependency_cycle c st C -> dependency_cycle c st' C.
Proof.
  intros L H s Hs. destruct (H s Hs) as (r & d & n & t & He & Hd & Hin & Ht).
  pose proof (later_deps _ _ L r) as Hr. rewrite Hd in Hr.
  inversion Hr as [d0 d' (_ & _ & Hty & _) E0 E' |]. subst d0.
  exists r, d', n, t. split; [| split; [| split]].
  - unfold entries in *. rewrite (later_dicts _ _ L). exact He.
  - symmetry. assumption.
  - rewrite <- Hty. exact Hin.
  - exact Ht.
Qed.

(** X14. When the registered recipes of a set of symbols each have a
    parameter annotated with a symbol of the set (a class that depends on
    itself, two classes that depend on each other, ...), no resolution of
    a symbol of the set returns a value, whatever the depth of recursion
    that is allowed: the container has no guard against circular
    dependencies. *)
Theorem cycle_never_resolves Σ (c : Container) (C : sym -> Prop) (fuel : nat) :
  forall (s : sym) (st : State),
    dependency_cycle c st C -> C s ->
    forall v st', resolve Σ fuel c s st <> (Ok v, st').
Proof.
  induction fuel as [| fuel IH]; intros s st Hcyc Hs v st' H; [discriminate |].
  destruct (Hcyc s Hs) as (r & d & n & t & He & Hd & Hin & Ht).
  rewrite (resolve_present Σ fuel c s st r d He Hd) in H.
  apply bind_Ok in H as (kw & st1 & Hl & _).
  destruct (resolve_types_calls (resolve Σ fuel c) (types d)
              (forward_resolve Σ fuel c) _ _ _ _ _ _ Hl Hin)
    as (sta & stb & v' & La & _ & Hr).
  exact (IH t sta (dependency_cycle_later _ _ _ _ La Hcyc) Ht v' stb Hr).
Qed.

(** X14 at work: [A] needs a [B] and [B] needs an [A]. *)
Lemma cycle_never_resolves_witness :
  ~ (exists fuel v st',
       resolve circular fuel demo_container "A" circular_registered
       = (Ok v, st')).
Proof.
  intros (fuel & v & st' & H).
  refine (cycle_never_resolves circular demo_container
            (fun s => s = "A" \/ s = "B") fuel "A" circular_registered
            _ _ v st' H); [| left; reflexivity].
  intros s [-> | ->].
  - exists 3, (MkDependency "make_a" false VNone [("b", "B")] []), "b", "B".
    repeat split; [left | right; reflexivity].
  - exists 4, (MkDependency "make_b" false VNone [("a", "A")] []), "a", "A".
    repeat split; [left | left; reflexivity].
Defined.

(** X15. A symbol whose cached recipe already holds a truthy instance is
    resolved to that instance, yet the parameter loop runs first: a
    parameter type registered in the same container with a recipe that is
    not cached is built once more, by one more call of its target, and the
    object is thrown away. *)
Theorem cached_hit_rebuilds_parameters Σ (c : Container) (fuel : nat)
    (s : sym) (st : State) (r : addr) (d : Dependency)
    (n : string) (T : sym) (rT : addr) (dT : Dependency)
    (v : value) (st' : State) :
  entries c st !! s = Some r -> dep_store st !! r = Some d ->
  cached d = true -> truthy (instance d) = true ->
  (n, T) ∈ types d ->
  entries c st !! T = Some rT -> dep_store st !! rT = Some dT ->
  cached dT = false ->
  resolve Σ fuel c s st = (Ok v, st') ->
  v = instance d /\
  exists kw pre post,
    trace st' = (trace st ++ pre ++ [(target dT, kw)] ++ post)%list.
Proof.
  intros He Hd Hc Htr Hin HeT HdT HcT H.
  destruct fuel as [| fuel]; [discriminate |].
  rewrite (resolve_present Σ fuel c s st r d He Hd) in H.
  apply bind_Ok in H as (kw & st1 & Hl & H).
  pose proof (forward_resolve_types (resolve Σ fuel c) (types d)
                (forward_resolve Σ fuel c)
                (kwargs_update ∅ (defaults d)) st) as L.
  rewrite Hl in L. simpl in L.
  assert (dep_store st1 !! r = Some d) as Hd1
    by (apply (later_settled _ _ L r d Hd); right; exact Htr).
  rewrite (Dependency_resolve_hit Σ r kw st1 d Hd1 Hc Htr) in H.
  injection H as <- <-. split; [reflexivity |].
  destruct (resolve_types_calls (resolve Σ fuel c) (types d)
              (forward_resolve Σ fuel c) _ _ _ _ _ _ Hl Hin)
    as (sta & stb & v' & La & Lb & Hr).
  destruct fuel as [| fuel]; [discriminate |].
  assert (entries c sta !! T = Some rT) as HeT'
    by (unfold entries in *; rewrite (later_dicts _ _ La); exact HeT).
  assert (dep_store sta !! rT = Some dT) as HdT'
    by (apply (later_settled _ _ La rT dT HdT); left; exact HcT).
  rewrite (resolve_present Σ fuel c T sta rT dT HeT' HdT') in Hr.
  apply bind_Ok in Hr as (kw' & st2 & Hl' & Hr).
  pose proof (forward_resolve_types (resolve Σ fuel c) (types dT)
                (forward_resolve Σ fuel c)
                (kwargs_update ∅ (defaults dT)) sta) as L'.
  rewrite Hl' in L'. simpl in L'.
  assert (dep_store st2 !! rT = Some dT) as HdT2
    by (apply (later_settled _ _ L' rT dT HdT'); left; exact HcT).
  rewrite (Dependency_resolve_transient Σ rT kw' st2 dT HdT2 HcT) in Hr.
  unfold invoke in Hr. destruct (Σ !! target dT) as [cl |]; [| discriminate].
  destruct (call cl kw' (next_addr st2)); [| discriminate].
  injection Hr as _ <-.
  destruct (later_trace _ _ La) as [p1 E1].
  destruct (later_trace _ _ L') as [p2 E2].
  destruct (later_trace _ _ Lb) as [p3 E3]. simpl in E3.
  exists kw', (p1 ++ p2)%list, p3.
  rewrite E3, E2, E1. rewrite <- !app_assoc. reflexivity.
Qed.

(** X15 at work: the cached [A] was resolved once; resolving it again
    returns the same object and builds another [B]. *)
Lemma cached_hit_rebuilds_parameters_witness :
  exists v st' kw pre post,
    resolve demo 2 demo_container "A" cached_A_resolved = (Ok v, st') /\
    trace st' = (trace cached_A_resolved ++ pre ++ [("B", kw)] ++ post)%list.
Proof.
  destruct (resolve demo 2 demo_container "A" cached_A_resolved)
    as [o st'] eqn:E.
  assert (exists v, o = Ok v) as [v ->]
    by (vm_compute in E; injection E as <- _; eexists; reflexivity).
  destruct (dep_store cached_A_resolved !! 3) as [d |] eqn:Ed;
    [| vm_compute in Ed; discriminate].
  destruct (dep_store cached_A_resolved !! 4) as [dT |] eqn:EdT;
    [| vm_compute in EdT; discriminate].
  assert (cached d = true /\ truthy (instance d) = true /\
          ("b", "B") ∈ types d /\ cached dT = false /\ target dT = "B")
    as (Hc & Ht & Hin & HcT & HtT).
  { vm_compute in Ed, EdT. injection Ed as <-. injection EdT as <-.
    repeat split. left. }
  destruct (cached_hit_rebuilds_parameters demo demo_container 2 "A"
              cached_A_resolved 3 d "b" "B" 4 dT v st')
    as (_ & kw & pre & post & Htrace); try assumption; try reflexivity.
  exists v, st', kw, pre, post. rewrite <- HtT. auto.
Defined.
